(** * sitemap-crawler: the crawl command of [src/index.ts]

    A shallow embedding of the [crawl] action: the filename deriver
    [urlToFilename], the per-URL operation [processUrl], the retry options
    and their logged backoff, the retry wrapper, and the fan-out over the
    sitemap's URLs with its summary and exit codes.

    JavaScript numbers that hold option values, attempt numbers and counts
    are integers here ([Z], [nat]); the delay printed after a failed attempt
    is computed on doubles and is a [number], which has the infinities and
    [NaN]; strings are [string]; a value that may be
    [null] or [undefined] is an [option]; the file system is a finite map
    from paths to file contents; the console is a list of structured lines
    (one constructor per message template of the source, colours dropped). *)

From Stdlib Require Import ZArith String Ascii List Lia Bool Strings.Byte.
From stdpp Require Import base tactics option list strings gmap.
Import ListNotations.

Local Open Scope string_scope.
Local Open Scope Z_scope.

(** ** Strings *)

Definition nl : string := String "010"%char EmptyString.

(** The characters of a string, in order. *)
Fixpoint chars (s : string) : list ascii :=
  match s with
  | EmptyString => []
  | String c r => c :: chars r
  end.

(** JavaScript's [a || b] on a string that may be null or undefined: the
    empty string is falsy as well. *)
Definition or_else (a : option string) (b : string) : string :=
  match a with
  | Some (String c r) => String c r
  | Some EmptyString => b
  | None => b
  end.

(** JavaScript truthiness of such a value. *)
Definition truthy (a : option string) : bool :=
  match a with
  | Some (String _ _) => true
  | _ => false
  end.

(** The value is absent ([null], [undefined]) or the empty string. *)
Definition absent (a : option string) : Prop :=
  a = None \/ a = Some "".

(** ** Filename deriver *)

(** [digest("hex")]: two lowercase hexadecimal digits per byte. *)
Definition hexDigits : list ascii := chars "0123456789abcdef".

Definition hexDigit (n : N) : ascii := nth (N.to_nat n) hexDigits "0"%char.

Fixpoint hex (bs : list byte) : string :=
  match bs with
  | [] => EmptyString
  | b :: r =>
      String (hexDigit (Byte.to_N b / 16))
        (String (hexDigit (Byte.to_N b mod 16)) (hex r))
  end.

Section Filename.
(** [crypto.createHash("md5").update(url).digest()]: Node's MD5, taken as
    a parameter; nothing below depends on which hash it is. *)
Variable md5 : string -> list byte.

Definition urlToFilename (url : string) : string :=
  let md5Hash := hex (md5 url) in
  md5Hash ++ ".md".
End Filename.

(** A path separator of the target file systems. *)
Definition is_separator (c : ascii) : bool :=
  (Ascii.eqb c "/" || Ascii.eqb c "\")%bool.

(** A character allowed inside a path segment: no separator, no NUL. *)
Definition safe_char (c : ascii) : Prop :=
  is_separator c = false /\ c <> "000"%char.

(** A single path segment: not empty, not [.] or [..], safe characters
    only. *)
Definition single_segment (s : string) : Prop :=
  s <> "" /\ s <> "." /\ s <> ".." /\ Forall safe_char (chars s).

(** [s] ends with [suffix]. *)
Definition ends_with (suffix s : string) : Prop :=
  exists stem, s = stem ++ suffix.

(** ** Values of the per-URL operation *)

(** [new Error(message)], and whatever the collaborators reject with. *)
Record Error := { message : string }.

(** What [Parser.parse] resolves to ([contentType: "markdown"]). *)
Module Result.
Record t := {
  title : option string;
  excerpt : option string;
  domain : option string;
  word_count : option Z;
  author : option string;
  date_published : option string;
  lead_image_url : option string;
  content : option string
}.
End Result.

(** The shape of the [metadata] object of [processUrl]. *)
Module Metadata.
Record t := {
  title : option string;
  excerpt : option string;
  siteName : option string;
  url : string;
  wordCount : option Z;
  length : option Z;
  processedAt : string;
  author : option string;
  date_published : option string;
  lead_image_url : option string
}.
End Metadata.

(** The objects the per-target callback resolves to:
    [{success: true, url, path}] and [{success: false, url, error}]. *)
Inductive Outcome :=
| Success (url path : string)
| Failure (url : string) (error : Error).

Definition success (o : Outcome) : bool :=
  match o with
  | Success _ _ => true
  | Failure _ _ => false
  end.

(** The numbers that the delay computation of [onFailedAttempt] can give.
    It runs on doubles: [Finite z] is the integer [z], [Scaled m e] is
    [m * 2^e] for a negative [e], and the other three are the values
    [Infinity], [-Infinity] and [NaN]. *)
Inductive number :=
| Finite (z : Z)
| Scaled (m e : Z)
| PlusInfinity
| MinusInfinity
| NaN.

(** Console output, one constructor per message template. *)
Inductive Line :=
| Processing (i n : Z) (siteUrl : string)
| FetchingURL (siteUrl : string)
| NoContentFound (siteUrl : string)
| SavedTo (filePath : string)
| AttemptFailed (retryCount maxRetries : Z) (msg : string)
| NextRetryIn (nextRetryDelay : number)
| ErrorProcessing (siteUrl msg : string)
| StoppingDueToError
| Completed (total successful failed : Z).

(** What one attempt meets outside the program: the extraction
    collaborator's answer, the clock, and whether the write is refused. *)
Inductive Parsed :=
| ParseRejects (e : Error)
| ParseResolves (r : option Result.t).

Record Attempt := {
  parsed : Parsed;
  now : string;
  writeRejects : option Error
}.

(** The extraction result has no body: no result at all, or a result whose
    [content] is absent or empty. *)
Definition no_body (p : Parsed) : Prop :=
  p = ParseResolves None \/
  exists r, p = ParseResolves (Some r) /\ absent (Result.content r).

(** The world the program acts on. *)
Record World := {
  fs : gmap string string;
  console : list Line
}.

Definition log (l : Line) (w : World) : World :=
  {| fs := fs w; console := console w ++ [l] |}.

Definition writeFile (filePath data : string) (w : World) : World :=
  {| fs := <[filePath := data]> (fs w); console := console w |}.

(** ** Document assembler and the per-URL operation *)

(** The [metadata] object literal; [now] stands for
    [new Date().toISOString()]. *)
Definition metadata (siteUrl : string) (r : Result.t) (now : string)
  : Metadata.t :=
  {| Metadata.title := Result.title r;
     Metadata.excerpt := Result.excerpt r;
     Metadata.siteName := Result.domain r;
     Metadata.url := siteUrl;
     Metadata.wordCount := Result.word_count r;
     Metadata.length := Result.word_count r;
     Metadata.processedAt := now;
     Metadata.author := Result.author r;
     Metadata.date_published := Result.date_published r;
     Metadata.lead_image_url := Result.lead_image_url r |}.

Section Assembler.
Variable md5 : string -> list byte.
(** [dump] of js-yaml and [resolve] of Node's path module, as parameters. *)
Variable yamlDump : Metadata.t -> string.
Variable resolve : string -> string -> string.
Variable outputPath : string.

(** The template literal bound to [content]. *)
Definition content (m : Metadata.t) (markdown : string) : string :=
  let yamlFrontmatter := yamlDump m in
  "---" ++ nl ++
  yamlFrontmatter ++ "---" ++ nl ++
  nl ++
  "# " ++ or_else (Metadata.title m) "Untitled" ++ nl ++
  nl ++
  markdown ++ nl.

(** [processUrl] up to its first suspension, at [Parser.parse]. *)
Definition processUrl_begin (siteUrl : string) (w : World) : World :=
  log (FetchingURL siteUrl) w.

(** [processUrl] from the answer of [Parser.parse] on: [inl] is a throw. *)
Definition processUrl_resume (siteUrl : string) (a : Attempt) (w : World)
  : (Error + Outcome) * World :=
  match parsed a with
  | ParseRejects e => (inl e, w)
  | ParseResolves r =>
      match r with
      | Some r' =>
          if truthy (Result.content r') then
            let markdown := or_else (Result.content r') "" in
            let m := metadata siteUrl r' (now a) in
            let content := content m markdown in
            let filename := urlToFilename md5 siteUrl in
            let filePath := resolve outputPath filename in
            match writeRejects a with
            | Some e => (inl e, w)
            | None =>
                let w1 := writeFile filePath content w in
                (inr (Success siteUrl filePath), log (SavedTo filePath) w1)
            end
          else
            (inl {| message := "No content found" |},
             log (NoContentFound siteUrl) w)
      | None =>
          (inl {| message := "No content found" |},
           log (NoContentFound siteUrl) w)
      end
  end.

Definition processUrl (siteUrl : string) (a : Attempt) (w : World)
  : (Error + Outcome) * World :=
  processUrl_resume siteUrl a (processUrl_begin siteUrl w).
End Assembler.

(** ** Options *)

(** The command's options after [parseInt(options.x || default)]: the
    numeric fields hold the parsed integers (text that does not parse to an
    integer is outside this model). *)
Record CrawlOptions := {
  debug : bool;
  continue : bool;
  retries : Z;
  retryDelay : Z;
  rateLimitPerSecond : Z
}.

(** The defaults of the option declarations: ["3"], ["1000"], ["1"]. *)
Definition defaults : CrawlOptions :=
  {| debug := false; continue := false;
     retries := 3; retryDelay := 1000; rateLimitPerSecond := 1 |}.

(** ** Retry options *)

(** The numeric fields of the options handed to [pRetry]. *)
Module RetryOptions.
Record t := {
  retries : Z;
  factor : Z;
  minTimeout : Z;
  maxTimeout : Z
}.
End RetryOptions.

(** The [retryOptions] literal, without its [onFailedAttempt] field (below). *)
Definition retryOptions (options : CrawlOptions) : RetryOptions.t :=
  {| RetryOptions.retries := retries options;
     RetryOptions.factor := 2;
     RetryOptions.minTimeout := retryDelay options;
     RetryOptions.maxTimeout := 60000 |}.

(** Every double lies strictly between [- huge] and [huge]. *)
Definition huge : Z := 2 ^ 1024.

(** [Math.pow(2, y)] for an integer [y]: a power of two is a double from
    [2^-1074] to [2^1023]; above the result is [Infinity], below it is 0. *)
Definition Math_pow2 (y : Z) : number :=
  if 1024 <=? y then PlusInfinity
  else if 0 <=? y then Finite (2 ^ y)
  else if -1074 <=? y then Scaled 1 y
  else Finite 0.

(** [d * x] for an integer [d] and a value [x] of [Math_pow2]. Scaling by a
    power of two is exact unless the product leaves the doubles; an
    infinite factor gives an infinite product, of the sign of [d], and
    [0 * Infinity] is [NaN]. *)
Definition times (d : Z) (x : number) : number :=
  match x with
  | Finite p =>
      let v := d * p in
      if huge <=? Z.abs v
      then (if 0 <? v then PlusInfinity else MinusInfinity)
      else Finite v
  | Scaled m e =>
      let v := d * m in
      if v mod 2 ^ (- e) =? 0 then Finite (v / 2 ^ (- e)) else Scaled v e
  | PlusInfinity =>
      if 0 <? d then PlusInfinity
      else if d <? 0 then MinusInfinity
      else NaN
  | MinusInfinity =>
      if 0 <? d then MinusInfinity
      else if d <? 0 then PlusInfinity
      else NaN
  | NaN => NaN
  end.

(** [Math.min(x, c)] for an integer [c]: [NaN] if [x] is. *)
Definition Math_min (x : number) (c : Z) : number :=
  match x with
  | Finite z => Finite (Z.min z c)
  | Scaled m e => if m <=? c * 2 ^ (- e) then Scaled m e else Finite c
  | PlusInfinity => Finite c
  | MinusInfinity => MinusInfinity
  | NaN => NaN
  end.

(** [nextRetryDelay] of [onFailedAttempt]; [retryCount] is
    [error.attemptNumber], which counts from 1. *)
Definition nextRetryDelay (options : CrawlOptions) (retryCount : Z)
  : number :=
  Math_min (times (retryDelay options) (Math_pow2 (retryCount - 1))) 60000.

(** The [onFailedAttempt] field: two console lines. The URL slot of the
    first one is not kept: the source fills it from [error.options?.url]. *)
Definition onFailedAttempt (options : CrawlOptions) (attemptNumber : Z)
    (error : Error) (w : World) : World :=
  let retryCount := attemptNumber in
  let maxRetries := retries options in
  log (NextRetryIn (nextRetryDelay options retryCount))
    (log (AttemptFailed retryCount maxRetries (message error)) w).

(** ** Retry wrapper *)

(** States of the wrapper around one operation (spec 4.3). *)
Inductive RetryState (T : Type) :=
| Attempting (n : nat)
| Waiting (delay : Z) (n : nat)
| Done (v : T)
| Exhausted (e : Error).
Arguments Attempting {T} n.
Arguments Waiting {T} delay n.
Arguments Done {T} v.
Arguments Exhausted {T} e.

(** Modelled from the spec: the wait before the next attempt, for the
    package p-retry, which package.json lists as a dependency and whose code
    is not in the repository. Spec 4.3:
    [delay = min(initialRetryDelayMs * backoffFactor^(n-1), maxRetryDelayMs)],
    [n] the 1-based number of the attempt that just failed. *)
Definition backoff (ro : RetryOptions.t) (n : nat) : Z :=
  Z.min (RetryOptions.minTimeout ro * RetryOptions.factor ro ^ (Z.of_nat n - 1))
        (RetryOptions.maxTimeout ro).

(** Modelled from the spec: what the wrapper of p-retry (a dependency, not
    in the repository) does when attempt [n] settles. A success ends the run
    at once. A failure is followed by a wait and another attempt while
    retries remain: errors are "retried up to maxRetries" (spec 7) and with
    maxRetries = 3 there are delays "before attempts 2,3,4" (spec 8); the
    option is declared as "Number of retry attempts for failed URLs". The
    first attempt is not a retry, so attempt [n] is retried when
    [n <= retries]. *)
Definition afterAttempt {T} (ro : RetryOptions.t) (n : nat) (r : Error + T)
  : RetryState T :=
  match r with
  | inr v => Done v
  | inl e =>
      if Z.of_nat n <=? RetryOptions.retries ro
      then Waiting (backoff ro n) n
      else Exhausted e
  end.

(** ** Batch coordinator *)

(** An element of what [Promise.allSettled] resolves to. *)
Inductive Settled :=
| fulfilled (value : Outcome)
| rejected (reason : Error).

Definition is_fulfilled (r : Settled) : bool :=
  match r with fulfilled _ => true | rejected _ => false end.

Definition is_rejected (r : Settled) : bool :=
  match r with fulfilled _ => false | rejected _ => true end.

(** The element carries a [Success] outcome. *)
Definition succeeded (r : Settled) : bool :=
  match r with fulfilled v => success v | rejected _ => false end.

(** Where the callback of one target stands: held back by the limiter with
    its operation not started, inside the retry wrapper, or settled. *)
Inductive Phase :=
| Queued
| Running (s : RetryState Outcome)
| Finished (r : Settled).

Record Task := {
  target : string;
  phase : Phase
}.

(** The process: the callbacks of [sites.map] in the order of [sites], the
    world, and the exit status once [process.exit] has been called. *)
Record Loop := {
  tasks : list Task;
  world : World;
  exitCode : option Z
}.

Definition set_world (w : World) (l : Loop) : Loop :=
  {| tasks := tasks l; world := w; exitCode := exitCode l |}.

Definition set_phase (i : nat) (p : Phase) (l : Loop) : Loop :=
  {| tasks := alter (fun t => {| target := target t; phase := p |}) i (tasks l);
     world := world l;
     exitCode := exitCode l |}.

Definition add_task (siteUrl : string) (p : Phase) (l : Loop) : Loop :=
  {| tasks := tasks l ++ [{| target := siteUrl; phase := p |}];
     world := world l;
     exitCode := exitCode l |}.

Definition exit (code : Z) (l : Loop) : Loop :=
  {| tasks := tasks l; world := world l; exitCode := Some code |}.

(** The operation of a target has been started at some point. *)
Definition started (t : Task) : bool :=
  match phase t with
  | Queued => false
  | _ => true
  end.

Definition settledOf (t : Task) : option Settled :=
  match phase t with
  | Finished r => Some r
  | _ => None
  end.

(** The array [results], once every callback has settled. *)
Definition results (l : Loop) : option (list Settled) :=
  mapM settledOf (tasks l).

Section Coordinator.
Variable md5 : string -> list byte.
Variable yamlDump : Metadata.t -> string.
Variable resolve : string -> string -> string.
Variable outputPath : string.
Variable options : CrawlOptions.
(** What attempt [n] of the target at index [i] meets. *)
Variable env : nat -> nat -> Attempt.

(** The first attempt of [pRetry(() => processUrl(siteUrl), retryOptions)]
    runs up to [Parser.parse] in the same turn. *)
Definition start_operation (siteUrl : string) (l : Loop) : Loop :=
  add_task siteUrl (Running (Attempting 1))
    (set_world (processUrl_begin siteUrl (world l)) l).

(** Modelled from the spec: the limiter of p-throttle (a dependency, not
    in the repository) at the [i]-th call of the throttled function during
    the fan-out. Spec 4.4: "operations whose start would exceed the limit
    are queued until the next window admits them"; the calls up to the
    limit start at once. *)
Definition pThrottle (limit : Z) (i : nat) (siteUrl : string) (l : Loop)
  : Loop :=
  if Z.of_nat i <? limit
  then start_operation siteUrl l
  else add_task siteUrl Queued l.

Definition throttledFn (i : nat) (siteUrl : string) (l : Loop) : Loop :=
  if 0 <? rateLimitPerSecond options
  then pThrottle (rateLimitPerSecond options) i siteUrl l
  else start_operation siteUrl l.

(** [sites.map(async (siteUrl, i) => ...)]: every callback runs up to its
    [await throttledFn(siteUrl)] before the next one is called. *)
Fixpoint submit (n : Z) (i : nat) (sites : list string) (l : Loop) : Loop :=
  match sites with
  | [] => l
  | siteUrl :: rest =>
      submit n (S i) rest
        (throttledFn i siteUrl
           (set_world (log (Processing (Z.of_nat i + 1) n siteUrl) (world l)) l))
  end.

(** The [catch] block of the callback. *)
Definition on_error (i : nat) (siteUrl : string) (error : Error) (l : Loop)
  : Loop :=
  let l1 :=
    set_world (log (ErrorProcessing siteUrl (message error)) (world l)) l in
  if continue options
  then set_phase i (Finished (fulfilled (Failure siteUrl error))) l1
  else exit 1 (set_world (log StoppingDueToError (world l1)) l1).

(** One event of the target at index [i]: the limiter lets its operation
    start (in the order of the calls), its attempt in flight settles, or
    its backoff wait ends. Nothing runs once the process has exited. An
    attempt is one event: from the answer of [Parser.parse] to the end of
    [writeFile]. *)
Definition step (i : nat) (l : Loop) : Loop :=
  match exitCode l with
  | Some _ => l
  | None =>
      match tasks l !! i with
      | None => l
      | Some t =>
          let siteUrl := target t in
          match phase t with
          | Queued =>
              if forallb started (take i (tasks l))
              then set_phase i (Running (Attempting 1))
                     (set_world (processUrl_begin siteUrl (world l)) l)
              else l
          | Running (Attempting n) =>
              let '(r, w) :=
                processUrl_resume md5 yamlDump resolve outputPath
                  siteUrl (env i n) (world l) in
              let w' :=
                match r with
                | inl e => onFailedAttempt options (Z.of_nat n) e w
                | inr _ => w
                end in
              match afterAttempt (retryOptions options) n r with
              | Done v => set_phase i (Finished (fulfilled v)) (set_world w' l)
              | Waiting d m => set_phase i (Running (Waiting d m)) (set_world w' l)
              | Exhausted e => on_error i siteUrl e (set_world w' l)
              | Attempting _ => l
              end
          | Running (Waiting _ n) =>
              set_phase i (Running (Attempting (S n)))
                (set_world (processUrl_begin siteUrl (world l)) l)
          | Running _ => l
          | Finished _ => l
          end
      end
  end.

(** After [await Promise.allSettled(...)]: the two counts, the summary
    line and [process.exit(0)]. [n] is [sites.length]. *)
Definition finish (n : Z) (l : Loop) : Loop :=
  match exitCode l, results l with
  | None, Some rs =>
      let successful := Z.of_nat (List.length (List.filter is_fulfilled rs)) in
      let failed := Z.of_nat (List.length (List.filter is_rejected rs)) in
      exit 0 (set_world (log (Completed n successful failed) (world l)) l)
  | _, _ => l
  end.

Definition initial (w : World) : Loop :=
  {| tasks := []; world := w; exitCode := None |}.

(** The events of [schedule] in turn, each followed by the continuation
    of [Promise.allSettled] when it is due. *)
Definition events (n : Z) (schedule : list nat) (l : Loop) : Loop :=
  fold_left (fun l i => finish n (step i l)) schedule l.

(** The run over [sites] from world [w], its events in the order given by
    [schedule]. *)
Definition crawl (sites : list string) (w : World) (schedule : list nat)
  : Loop :=
  let n := Z.of_nat (List.length sites) in
  events n schedule (finish n (submit n 0 sites (initial w))).
End Coordinator.

(** ** Vocabulary of the properties *)

(** Every callback stands in a phase that satisfies [Q]. *)
Definition phases (Q : Phase -> Prop) (l : Loop) : Prop :=
  Forall (fun t => Q (phase t)) (tasks l).

(** The phases an event of [step] can put a callback in. *)
Definition reachable_phase (options : CrawlOptions) (p : Phase) : Prop :=
  match p with
  | Queued => False
  | Running (Attempting _) => True
  | Running (Waiting _ _) => True
  | Running _ => False
  | Finished (fulfilled (Success _ _)) => True
  | Finished (fulfilled (Failure _ _)) => continue options = true
  | Finished (rejected _) => False
  end.

Definition not_rejected (p : Phase) : Prop :=
  forall e, p <> Finished (rejected e).

Definition no_failure (p : Phase) : Prop :=
  forall u e, p <> Finished (fulfilled (Failure u e)).

Definition not_queued (p : Phase) : Prop :=
  p <> Queued.

(** The last lines of the console are [ls]. *)
Definition console_ends (ls : list Line) (w : World) : Prop :=
  exists before, console w = (before ++ ls)%list.

(** What holds of every state of a run over [sites]: no promise of the
    fan-out is rejected, the callbacks are those of [sites] in order, and
    once the process has exited with status 0 the summary line counts every
    target as successful and none as failed. *)
Definition summary_invariant (sites : list string) (l : Loop) : Prop :=
  phases not_rejected l /\
  List.map target (tasks l) = sites /\
  (exitCode l = Some 0 ->
   is_Some (results l) /\
   console_ends
     [Completed (Z.of_nat (List.length sites))
                (Z.of_nat (List.length sites)) 0] (world l)).

(** What holds of every state of a run over [sites] without [--continue]:
    no failure is recorded as an outcome, the exit status is 0 or 1, and
    status 1 comes with the two error lines of a target as the last
    output. *)
Definition halt_invariant (sites : list string) (l : Loop) : Prop :=
  phases no_failure l /\
  List.map target (tasks l) = sites /\
  (exitCode l = Some 1 ->
   exists siteUrl msg,
     In siteUrl sites /\
     console_ends [ErrorProcessing siteUrl msg; StoppingDueToError] (world l)) /\
  (forall c, exitCode l = Some c -> c = 0 \/ c = 1).

(** ** Sample inputs

    A three-page sitemap whose second page can never be fetched, with
    stand-ins for the collaborators. *)

Definition sample_digest (u : string) : list byte :=
  List.map byte_of_ascii (chars u).

Definition sample_yaml (m : Metadata.t) : string :=
  "url: " ++ Metadata.url m ++ nl.

Definition sample_resolve (dir file : string) : string :=
  dir ++ "/" ++ file.

Definition page (heading : option string) (body : option string) : Result.t :=
  {| Result.title := heading;
     Result.excerpt := None;
     Result.domain := Some "example.com";
     Result.word_count := Some 2;
     Result.author := None;
     Result.date_published := None;
     Result.lead_image_url := None;
     Result.content := body |}.

Definition served : Attempt :=
  {| parsed := ParseResolves (Some (page (Some "Hello") (Some "two words")));
     now := "2025-01-01T00:00:00.000Z";
     writeRejects := None |}.

Definition blank : Attempt :=
  {| parsed := ParseResolves (Some (page (Some "Hello") (Some "")));
     now := "2025-01-01T00:00:00.000Z";
     writeRejects := None |}.

Definition refused : Attempt :=
  {| parsed := ParseRejects {| message := "connect ECONNREFUSED" |};
     now := "2025-01-01T00:00:00.000Z";
     writeRejects := None |}.

(** Targets [A; B; C]; every attempt at [B] (index 1) fails. *)
Definition ABC : list string := ["A"; "B"; "C"].

Definition B_always_fails (i n : nat) : Attempt :=
  if Nat.eqb i 1 then refused else served.

(** The first attempt at [B] meets a page without body; every other
    attempt is served. *)
Definition B_blank_first (i n : nat) : Attempt :=
  if (Nat.eqb i 1 && Nat.eqb n 1)%bool then blank else served.

Definition empty_world : World := {| fs := ∅; console := [] |}.

Abbreviation sample_crawl :=
  (crawl sample_digest sample_yaml sample_resolve "/out").

(** The defaults with [--continue]. *)
Definition continuing : CrawlOptions :=
  {| debug := false; continue := true;
     retries := 3; retryDelay := 1000; rateLimitPerSecond := 1 |}.

(** The defaults with [--rate-limit 0]. *)
Definition unthrottled : CrawlOptions :=
  {| debug := false; continue := false;
     retries := 3; retryDelay := 1000; rateLimitPerSecond := 0 |}.

(** A: fetched. B: started a second after A, fails. C: started a second
    after B, fetched. B: retried after 1000, 2000 and 4000, fails each
    time. *)
Definition B_exhausted_last : list nat :=
  [0; 1; 1; 2; 2; 1; 1; 1; 1; 1; 1]%nat.

(** The same up to the moment the fourth attempt at B is in flight. *)
Definition B_fourth_attempt : list nat :=
  [0; 1; 1; 2; 2; 1; 1; 1; 1; 1]%nat.

(** ** Further vocabulary *)

(** The URL an outcome object carries. *)
Definition outcome_url (o : Outcome) : string :=
  match o with
  | Success u _ => u
  | Failure u _ => u
  end.


(** The outcome recorded for a callback is that of its own target, and a
    [Success] names the file derived from the target's URL, which exists. *)
Definition outcome_matches (path_of : string -> string)
    (files : gmap string string) (t : Task) : Prop :=
  match phase t with
  | Finished (fulfilled (Success u p)) =>
      u = target t /\ p = path_of u /\ is_Some (files !! p)
  | Finished (fulfilled (Failure u _)) => u = target t
  | _ => True
  end.

(** One event moves the callback [t] into phase [p] without settling it
    with a success and without ending the process: the limiter starts its
    operation, its backoff wait ends, its failed attempt is to be retried,
    or, with [--continue], its last failure is recorded. *)
Inductive advance (options : CrawlOptions) (t : Task) : Phase -> Prop :=
| advance_start :
    phase t = Queued ->
    advance options t (Running (Attempting 1))
| advance_resume d n :
    phase t = Running (Waiting d n) ->
    advance options t (Running (Attempting (S n)))
| advance_retry n :
    phase t = Running (Attempting n) ->
    Z.of_nat n <= retries options ->
    advance options t (Running (Waiting (backoff (retryOptions options) n) n))
| advance_failure n e :
    phase t = Running (Attempting n) ->
    retries options < Z.of_nat n ->
    continue options = true ->
    advance options t (Finished (fulfilled (Failure (target t) e))).

(** No event of the callback at index [i] does anything: it has settled, or
    it is held back because an earlier call has not been started. *)
Definition blocked (i : nat) (t : Task) (l : Loop) : Prop :=
  match phase t with
  | Queued => forallb started (take i (tasks l)) = false
  | Running (Attempting _) => False
  | Running (Waiting _ _) => False
  | Running _ => True
  | Finished _ => True
  end.

(** The callback has settled. *)
Definition finished (t : Task) : bool :=
  match phase t with
  | Finished _ => true
  | _ => false
  end.

(** The phases a callback of a run can be in. *)
Definition live_phase (options : CrawlOptions) (p : Phase) : Prop :=
  p = Queued \/ reachable_phase options p.

(** How many events a callback in phase [p] can still take, [R] being the
    number of retries. *)
Definition steps_left (R : nat) (p : Phase) : nat :=
  match p with
  | Queued => 2 * R + 2
  | Running (Attempting n) => 2 * (R + 1 - n) + 1
  | Running (Waiting _ n) => 2 * (R - n) + 2
  | _ => 0
  end.

(** Enough events to settle one target: more than its start, an attempt
    and a wait per retry allowed, and the last attempt. *)
Definition patience (options : CrawlOptions) : nat :=
  2 * Z.to_nat (retries options) + 3.

(** The schedule that lets the targets settle one after the other: [k]
    events of the first target, then [k] of the second, and so on. *)
Definition sequential (n k : nat) : list nat :=
  flat_map (fun i => repeat i k) (seq 0 n).

(** The continuation of [Promise.allSettled] has run if it was due. *)
Definition closed (l : Loop) : Prop :=
  exitCode l = None -> results l = None.

(** ** The crawl action around the fan-out *)

(** Console lines of the action outside the fan-out. *)
Inductive Banner :=
| DebugModeEnabled
| FetchingSitemapFrom (url : string)
| FoundURLs (n : Z)
| RateLimitSetTo (rateLimitPerSecond : Z) (disabled : bool)
| ErrorFetchingSitemap (msg : string).

(** What the action meets before the fan-out: whether [mkdir] is refused,
    and what [sitemap.fetch] gives. *)
Record Startup := {
  mkdirRejects : option Error;
  fetched : Error + list string
}.

(** The error that ends the action before the fan-out, if any: [mkdir] is
    awaited first, [sitemap.fetch] only after it. *)
Definition startup_error (s : Startup) : option Error :=
  match mkdirRejects s with
  | Some error => Some error
  | None =>
      match fetched s with
      | inl error => Some error
      | inr _ => None
      end
  end.

(** The lines printed outside the fan-out, all of them before its first
    line, the directory that [mkdir] has made, and the process. The file
    system of the world maps the paths of files to their contents;
    [directory] is the path that is a directory once
    [mkdir(outputPath, { recursive: true })] has resolved, and [None] when
    it was refused. *)
Record Process := {
  banner : list Banner;
  directory : option string;
  loop : Loop
}.

Definition with_debug (b : bool) (options : CrawlOptions) : CrawlOptions :=
  {| debug := b;
     continue := continue options;
     retries := retries options;
     retryDelay := retryDelay options;
     rateLimitPerSecond := rateLimitPerSecond options |}.

Section Action.
Variable md5 : string -> list byte.
Variable yamlDump : Metadata.t -> string.
Variable resolve : string -> string -> string.
(** [process.cwd()]. *)
Variable cwd : string.

(** The function given to [.action]: the two debug lines, [mkdir], the
    sitemap, the two lines about it, and the fan-out; any rejection before
    the fan-out is caught by the inner [catch], which prints
    [Error fetching sitemap:] with the message and exits with status 1.
    [mkdir] is awaited before the sitemap is asked for, so the directory is
    there when [sitemap.fetch] is refused. *)
Definition action (url outputDir : string) (options : CrawlOptions)
    (s : Startup) (env : nat -> nat -> Attempt) (w : World)
    (schedule : list nat) : Process :=
  let debugLines :=
    if debug options
    then [DebugModeEnabled; FetchingSitemapFrom url]
    else [] in
  let outputPath := resolve cwd outputDir in
  let caught made error :=
    {| banner := debugLines ++ [ErrorFetchingSitemap (message error)];
       directory := made;
       loop := exit 1 (initial w) |} in
  match mkdirRejects s with
  | Some error => caught None error
  | None =>
      match fetched s with
      | inl error => caught (Some outputPath) error
      | inr sites =>
          let rateLimitPerSecond := rateLimitPerSecond options in
          {| banner :=
               debugLines ++
               [FoundURLs (Z.of_nat (List.length sites));
                RateLimitSetTo rateLimitPerSecond (rateLimitPerSecond =? 0)];
             directory := Some outputPath;
             loop :=
               crawl md5 yamlDump resolve outputPath options env sites w
                 schedule |}
      end
  end.
End Action.

(** A negative rate limit, and a start-up that succeeds with the sitemap
    [A; B; C]. *)
Definition negative_rate : CrawlOptions :=
  {| debug := true; continue := false;
     retries := 3; retryDelay := 1000; rateLimitPerSecond := -1 |}.

Definition sitemap_ABC : Startup :=
  {| mkdirRejects := None; fetched := inr ABC |}.

(** ** The earlier revision of the command

    The second source file of the [crawl] command: the same action with a
    file name derived from the path of the URL and with the operation
    handed to [throttle] inside the callback. *)
Module Legacy.

(** [s.replace(/^\//, "")]. *)
Definition strip_leading_slash (s : string) : string :=
  match s with
  | String c r => if Ascii.eqb c "/" then r else s
  | EmptyString => s
  end.

(** [s.replace(/\//g, "-")]. *)
Fixpoint dash_slashes (s : string) : string :=
  match s with
  | EmptyString => EmptyString
  | String c r =>
      String (if Ascii.eqb c "/" then "-"%char else c) (dash_slashes r)
  end.

(** [s.endsWith(suffix)]. *)
Fixpoint endsWith (suffix s : string) : bool :=
  if String.eqb s suffix then true
  else
    match s with
    | EmptyString => false
    | String _ r => endsWith suffix r
    end.

(** [urlToFilename] from [urlObj.pathname] on. *)
Definition filenameOfPath (pathname : string) : string :=
  let filename := dash_slashes (strip_leading_slash pathname) in
  let filename := if String.eqb filename "" then "index" else filename in
  if endsWith ".md" filename then filename else filename ++ ".md".

(** [urlToFilename]: [pathname] stands for [new URL(url).pathname], which
    throws on a string that is not a URL. *)
Definition urlToFilename (pathname : string -> Error + string) (url : string)
  : Error + string :=
  match pathname url with
  | inl e => inl e
  | inr p => inr (filenameOfPath p)
  end.

(** The per-URL operation the callback builds: the retried fetch, extract
    and write, as a function still to be called. *)
Definition Operation : Type := World -> (Error + Outcome) * World.

(** What [throttle(fn)] evaluates to. [throttle] is [(fn) => fn] when the
    rate limit is not positive and the limiter of p-throttle otherwise,
    which returns its wrapper of [fn]: a function in both cases, not a
    promise. *)
Inductive Value :=
| Unwrapped (fn : Operation)
| Wrapped (limit : Z) (fn : Operation).

Definition throttle (options : CrawlOptions) (fn : Operation) : Value :=
  if 0 <? rateLimitPerSecond options
  then Wrapped (rateLimitPerSecond options) fn
  else Unwrapped fn.

Inductive Settled :=
| fulfilled (value : Value)
| rejected (reason : Error).

Definition is_fulfilled (r : Settled) : bool :=
  match r with fulfilled _ => true | rejected _ => false end.

Definition is_rejected (r : Settled) : bool :=
  match r with fulfilled _ => false | rejected _ => true end.

(** The callbacks of [sites.map]: each prints its [Processing] line and
    returns [await throttle(async () => ...)]; awaiting a value that is not
    a promise gives the value itself, nothing is thrown, and the promise of
    the callback is fulfilled with the function. *)
Fixpoint fanOut (options : CrawlOptions) (operation : string -> Operation)
    (n : Z) (i : nat) (sites : list string) (w : World)
  : list Settled * World :=
  match sites with
  | [] => ([], w)
  | siteUrl :: rest =>
      let w1 := log (Processing (Z.of_nat i + 1) n siteUrl) w in
      let value := throttle options (operation siteUrl) in
      let '(results, w2) := fanOut options operation n (S i) rest w1 in
      (fulfilled value :: results, w2)
  end.

(** The fan-out, the two counts, the summary line and [process.exit(0)]. *)
Definition crawl (options : CrawlOptions) (operation : string -> Operation)
    (sites : list string) (w : World) : list Settled * World * Z :=
  let n := Z.of_nat (List.length sites) in
  let '(results, w1) := fanOut options operation n 0 sites w in
  let successful :=
    Z.of_nat (List.length (List.filter is_fulfilled results)) in
  let failed := Z.of_nat (List.length (List.filter is_rejected results)) in
  (results, log (Completed n successful failed) w1, 0).
End Legacy.

(** No character of [s] is a slash. *)
Definition no_slash (s : string) : Prop :=
  Forall (fun c => c <> "/"%char) (chars s).

(** A start-up in which the output directory cannot be created. *)
Definition mkdir_refused : Startup :=
  {| mkdirRejects := Some {| message := "EACCES: permission denied" |};
     fetched := inr ABC |}.

(** A start-up in which the directory is made and the sitemap cannot be
    fetched. *)
Definition fetch_refused : Startup :=
  {| mkdirRejects := None;
     fetched := inl {| message := "getaddrinfo ENOTFOUND" |} |}.

(** No delay between retries, and retries enough for the doubles to run
    out. *)
Definition no_delay : CrawlOptions :=
  {| debug := false; continue := false;
     retries := 2000; retryDelay := 0; rateLimitPerSecond := 1 |}.

(** * Properties *)

(** ** Filename deriver *)

Lemma chars_app (a b : string) : chars (a ++ b) = (chars a ++ chars b)%list.
Proof.
  induction a as [|c a IH]; simpl; [reflexivity | now rewrite IH].
Qed.

Lemma chars_inj (a b : string) : chars a = chars b -> a = b.
Proof.
  revert b. induction a as [|c a IH]; intros [|d b] H; simpl in H;
    try discriminate; [reflexivity |].
  injection H as -> H. f_equal. now apply IH.
Qed.

Lemma hexDigit_in (n : N) : In (hexDigit n) hexDigits.
Proof.
  unfold hexDigit.
  destruct (nth_in_or_default (N.to_nat n) hexDigits "0"%char) as [H | H].
  - exact H.
  - rewrite H. simpl. now left.
Qed.

Lemma hexDigits_safe : Forall safe_char hexDigits.
Proof.
  unfold hexDigits, safe_char; simpl.
  repeat (constructor; [split; [reflexivity | discriminate] |]).
  constructor.
Qed.

Lemma hexDigit_safe (n : N) : safe_char (hexDigit n).
Proof.
  pose proof hexDigits_safe as H. rewrite List.Forall_forall in H.
  apply H, hexDigit_in.
Qed.

Lemma hex_safe (bs : list byte) : Forall safe_char (chars (hex bs)).
Proof.
  induction bs as [|b bs IH]; simpl.
  - constructor.
  - repeat (constructor; [apply hexDigit_safe |]). exact IH.
Qed.

Lemma hex_length (bs : list byte) :
  List.length (chars (hex bs)) = (2 * List.length bs)%nat.
Proof.
  induction bs as [|b bs IH]; simpl; [reflexivity | rewrite IH; lia].
Qed.

Lemma urlToFilename_chars (md5 : string -> list byte) (u : string) :
  chars (urlToFilename md5 u) = (chars (hex (md5 u)) ++ chars ".md")%list.
Proof. unfold urlToFilename. apply chars_app. Qed.

Lemma urlToFilename_length (md5 : string -> list byte) (u : string) :
  List.length (chars (urlToFilename md5 u)) = (2 * List.length (md5 u) + 3)%nat.
Proof.
  rewrite urlToFilename_chars, List.length_app, hex_length. simpl. lia.
Qed.

Lemma urlToFilename_not (md5 : string -> list byte) (u s : string) :
  (List.length (chars s) < 3)%nat -> urlToFilename md5 u <> s.
Proof.
  intros Hs E. pose proof (urlToFilename_length md5 u) as H.
  rewrite E in H. lia.
Qed.

(** C6. [urlToFilename] is a function of the URL alone, defined on every
    string: equal URLs give equal names, and the name is a single path
    segment (not empty, not [.] or [..], no [/], no [\], no NUL) made of two
    hexadecimal digits per digest byte followed by the fixed extension
    [.md]. *)
Theorem urlToFilename_single_segment
    (md5 : string -> list byte) (u1 u2 : string) :
  u1 = u2 ->
  urlToFilename md5 u1 = urlToFilename md5 u2 /\
  single_segment (urlToFilename md5 u1) /\
  ends_with ".md" (urlToFilename md5 u1) /\
  List.length (chars (urlToFilename md5 u1)) = (2 * List.length (md5 u1) + 3)%nat.
Proof.
  intros ->. split; [reflexivity |]. split; [| split].
  - unfold single_segment.
    repeat split; try (apply urlToFilename_not; simpl; lia).
    rewrite urlToFilename_chars. apply Forall_app. split.
    + apply hex_safe.
    + simpl. repeat (constructor; [split; [reflexivity | discriminate] |]).
      constructor.
  - exists (hex (md5 u2)). reflexivity.
  - apply urlToFilename_length.
Qed.

Lemma urlToFilename_single_segment_witness :
  urlToFilename sample_digest "https://example.com/a?b=1#c" =
    "68747470733a2f2f6578616d706c652e636f6d2f613f623d312363.md" /\
  single_segment (urlToFilename sample_digest "https://example.com/a?b=1#c").
Proof.
  split; [reflexivity |].
  apply (urlToFilename_single_segment sample_digest
           "https://example.com/a?b=1#c" "https://example.com/a?b=1#c").
  reflexivity.
Defined.

(** ** Document assembler *)

Lemma truthy_absent (a : option string) : truthy a = false <-> absent a.
Proof.
  unfold absent. destruct a as [[|c s]|]; simpl; split; intros H;
    try reflexivity; try discriminate; auto.
  destruct H as [H | H]; discriminate.
Qed.

Lemma truthy_or_else (a : option string) (d : string) :
  truthy a = true -> a = Some (or_else a d) /\ or_else a d <> "".
Proof.
  destruct a as [[|c s]|]; simpl; intros H; try discriminate.
  split; [reflexivity | discriminate].
Qed.



Section AssemblerFacts.
Variable md5 : string -> list byte.
Variable yamlDump : Metadata.t -> string.
Variable resolve : string -> string -> string.
Variable outputPath : string.

Local Abbreviation resume :=
  (processUrl_resume md5 yamlDump resolve outputPath).

(** A successful attempt: there was a result with a body, the write was
    accepted, and the world gained exactly the assembled file. *)
Lemma processUrl_resume_inr siteUrl a w o w' :
  resume siteUrl a w = (inr o, w') ->
  exists r body,
    parsed a = ParseResolves (Some r) /\
    Result.content r = Some body /\ body <> "" /\
    writeRejects a = None /\
    let filePath := resolve outputPath (urlToFilename md5 siteUrl) in
    o = Success siteUrl filePath /\
    w' = log (SavedTo filePath)
           (writeFile filePath
              (content yamlDump (metadata siteUrl r (now a)) body) w).
Proof.
  unfold processUrl_resume. intros H.
  destruct (parsed a) as [e | [r |]]; try discriminate.
  destruct (truthy (Result.content r)) eqn:Ht; try discriminate.
  destruct (writeRejects a) as [e |]; try discriminate.
  injection H as <- <-.
  destruct (truthy_or_else _ "" Ht) as [Hc Hne].
  exists r, (or_else (Result.content r) ""). repeat split; assumption.
Qed.

(** No body: the attempt throws and the file system is as before. *)
Lemma processUrl_resume_no_body siteUrl a w :
  no_body (parsed a) ->
  resume siteUrl a w =
    (inl {| message := "No content found" |}, log (NoContentFound siteUrl) w).
Proof.
  unfold processUrl_resume.
  intros [-> | (r & -> & Habs)]; [reflexivity |].
  apply truthy_absent in Habs. now rewrite Habs.
Qed.

(** A failed attempt writes nothing. *)
Lemma processUrl_resume_inl_fs siteUrl a w e w' :
  resume siteUrl a w = (inl e, w') -> fs w' = fs w.
Proof.
  unfold processUrl_resume. intros H.
  destruct (parsed a) as [e0 | [r |]].
  - now injection H as _ <-.
  - destruct (truthy (Result.content r)).
    + destruct (writeRejects a); [now injection H as _ <- | discriminate].
    + now injection H as _ <-.
  - now injection H as _ <-.
Qed.
End AssemblerFacts.



(** C10. In the metadata of every assembled document [length] and
    [wordCount] are the same value, the extractor's [word_count]; this is
    the metadata serialized into the file a successful attempt writes. *)
Theorem metadata_length_is_wordCount
    (md5 : string -> list byte) (yamlDump : Metadata.t -> string)
    (resolve : string -> string -> string) (outputPath siteUrl : string)
    (a : Attempt) (w w' : World) (o : Outcome) :
  processUrl_resume md5 yamlDump resolve outputPath siteUrl a w = (inr o, w') ->
  exists r body m,
    parsed a = ParseResolves (Some r) /\
    fs w' !! resolve outputPath (urlToFilename md5 siteUrl) =
      Some (content yamlDump m body) /\
    m = metadata siteUrl r (now a) /\
    Metadata.length m = Metadata.wordCount m /\
    Metadata.wordCount m = Result.word_count r.
Proof.
  intros H.
  destruct (processUrl_resume_inr _ _ _ _ _ _ _ _ _ H)
    as (r & body & Hp & _ & _ & _ & _ & Hw).
  exists r, body, (metadata siteUrl r (now a)).
  repeat split; try assumption.
  subst w'. simpl. apply lookup_insert_eq.
Qed.

Lemma metadata_length_is_wordCount_witness :
  exists m body,
    fs (snd (processUrl_resume sample_digest sample_yaml sample_resolve "/out"
               "A" served empty_world)) !! "/out/41.md" =
      Some (content sample_yaml m body) /\
    Metadata.length m = Some 2 /\ Metadata.wordCount m = Some 2.
Proof.
  destruct (metadata_length_is_wordCount sample_digest sample_yaml
              sample_resolve "/out" "A" served empty_world
              (snd (processUrl_resume sample_digest sample_yaml sample_resolve
                      "/out" "A" served empty_world))
              (Success "A" "/out/41.md") eq_refl)
    as (r & body & m & Hp & Hfs & Hm & Hl & Hw).
  exists m, body. injection Hp as <-.
  split; [exact Hfs |]. rewrite Hl, Hw. split; reflexivity.
Defined.

(** ** Retry options and backoff *)

Lemma huge_large : 60000 <= huge.
Proof.
  unfold huge.
  assert (2 ^ 16 <= 2 ^ 1024) as H by (apply Z.pow_le_mono_r; lia).
  change (2 ^ 16) with 65536 in H. lia.
Qed.

Lemma pow2_huge (y : Z) : 1024 <= y -> huge <= 2 ^ y.
Proof. intros H. unfold huge. apply Z.pow_le_mono_r; lia. Qed.

(** With a retry delay of at least 1 the doubles give the integer result:
    where the product leaves the doubles it is [Infinity], and the smaller
    of [Infinity] and 60000 is 60000. *)
Lemma nextRetryDelay_positive (options : CrawlOptions) (n : Z) :
  1 <= retryDelay options ->
  1 <= n ->
  nextRetryDelay options n =
    Finite (Z.min (retryDelay options * 2 ^ (n - 1)) 60000).
Proof.
  intros Hd Hn. unfold nextRetryDelay, Math_pow2.
  assert (0 < 2 ^ (n - 1)) as Hpos by (apply Z.pow_pos_nonneg; lia).
  pose proof huge_large as Hh.
  destruct (Z.leb_spec 1024 (n - 1)) as [Hbig | Hsmall].
  - cbn [times]. destruct (Z.ltb_spec 0 (retryDelay options)); [| lia].
    cbn [Math_min]. f_equal. symmetry. apply Z.min_r.
    pose proof (pow2_huge (n - 1) Hbig). nia.
  - destruct (Z.leb_spec 0 (n - 1)); [| lia]. cbn [times]. cbv zeta.
    destruct (Z.leb_spec huge (Z.abs (retryDelay options * 2 ^ (n - 1))))
      as [Hover | Hin].
    + destruct (Z.ltb_spec 0 (retryDelay options * 2 ^ (n - 1))); [| nia].
      cbn [Math_min]. f_equal. symmetry. apply Z.min_r. lia.
    + reflexivity.
Qed.

(** With a retry delay of 0 the product is 0 while the power of two is a
    double, and [NaN] from there on. *)
Lemma nextRetryDelay_zero (options : CrawlOptions) (n : Z) :
  retryDelay options = 0 ->
  1 <= n ->
  nextRetryDelay options n = if n <=? 1024 then Finite 0 else NaN.
Proof.
  intros Hd Hn. unfold nextRetryDelay, Math_pow2. rewrite Hd.
  pose proof huge_large as Hh.
  destruct (Z.leb_spec n 1024).
  - destruct (Z.leb_spec 1024 (n - 1)); [lia |].
    destruct (Z.leb_spec 0 (n - 1)); [| lia].
    cbn [times]. cbv zeta. rewrite Z.mul_0_l. change (Z.abs 0) with 0.
    destruct (Z.leb_spec huge 0); [lia | reflexivity].
  - destruct (Z.leb_spec 1024 (n - 1)); [reflexivity | lia].
Qed.

Lemma console_onFailedAttempt
    (options : CrawlOptions) (n : Z) (e : Error) (w : World) :
  console (onFailedAttempt options n e w) =
    (console w ++
     [AttemptFailed n (retries options) (message e);
      NextRetryIn (nextRetryDelay options n)])%list.
Proof. unfold onFailedAttempt. simpl. now rewrite <- app_assoc. Qed.

(** C4. After failed attempt [n] (counted from 1) the delay computed and
    printed by [onFailedAttempt] is [min (retryDelay * 2^(n-1)) 60000], the
    backoff of the retry options handed to the wrapper (factor 2, ceiling
    60000), for every retry delay of at least 1, and for a retry delay of 0
    up to attempt 1024; with a retry delay of 1000 the delays before
    attempts 2, 3 and 4 are 1000, 2000 and 4000. With a retry delay of 0
    the formula gives 0 at every attempt, but from attempt 1025 on
    [Math.pow(2, n - 1)] is [Infinity], the product [0 * Infinity] is
    [NaN], and the line printed is [Next retry in NaNms]. *)
Theorem nextRetryDelay_formula
    (options : CrawlOptions) (n : Z) (e : Error) (w : World) :
  1 <= n ->
  let delay := Z.min (retryDelay options * 2 ^ (n - 1)) 60000 in
  (1 <= retryDelay options \/ retryDelay options = 0 /\ n <= 1024 ->
   nextRetryDelay options n = Finite delay /\
   console (onFailedAttempt options n e w) =
     (console w ++
      [AttemptFailed n (retries options) (message e);
       NextRetryIn (Finite delay)])%list) /\
  (retryDelay options = 0 -> 1025 <= n ->
   delay = 0 /\
   nextRetryDelay options n = NaN /\
   console (onFailedAttempt options n e w) =
     (console w ++
      [AttemptFailed n (retries options) (message e);
       NextRetryIn NaN])%list) /\
  delay = backoff (retryOptions options) (Z.to_nat n) /\
  RetryOptions.factor (retryOptions options) = 2 /\
  RetryOptions.maxTimeout (retryOptions options) = 60000 /\
  RetryOptions.minTimeout (retryOptions options) = retryDelay options /\
  delay <= 60000 /\
  (retryDelay options = 1000 ->
   nextRetryDelay options 1 = Finite 1000 /\
   nextRetryDelay options 2 = Finite 2000 /\
   nextRetryDelay options 3 = Finite 4000).
Proof.
  intros Hn delay. rewrite console_onFailedAttempt.
  split.
  { intros [Hd | [Hd Hn']].
    - rewrite (nextRetryDelay_positive options n Hd Hn). split; reflexivity.
    - rewrite (nextRetryDelay_zero options n Hd Hn).
      destruct (Z.leb_spec n 1024); [| lia].
      unfold delay. rewrite Hd, Z.mul_0_l. split; reflexivity. }
  split.
  { intros Hd Hn'. rewrite (nextRetryDelay_zero options n Hd Hn).
    destruct (Z.leb_spec n 1024); [lia |].
    unfold delay. rewrite Hd, Z.mul_0_l. repeat split. }
  split; [unfold delay, backoff; simpl; now rewrite Z2Nat.id by lia |].
  do 3 (split; [reflexivity |]).
  split; [apply Z.le_min_r |].
  intros Hd.
  rewrite !nextRetryDelay_positive by lia. rewrite Hd.
  split; [reflexivity |]. split; reflexivity.
Qed.

Lemma nextRetryDelay_formula_witness :
  nextRetryDelay defaults 3 = Finite 4000 /\
  nextRetryDelay defaults 7 = Finite 60000 /\
  nextRetryDelay no_delay 1024 = Finite 0 /\
  nextRetryDelay no_delay 1025 = NaN /\
  List.last
    (console (onFailedAttempt no_delay 1025 {| message := "timeout" |}
                empty_world)) StoppingDueToError = NextRetryIn NaN.
Proof.
  pose proof (nextRetryDelay_formula defaults 3
                {| message := "timeout" |} empty_world ltac:(lia))
    as (H3 & _).
  pose proof (nextRetryDelay_formula defaults 7
                {| message := "timeout" |} empty_world ltac:(lia))
    as (H7 & _).
  pose proof (nextRetryDelay_formula no_delay 1024
                {| message := "timeout" |} empty_world ltac:(lia))
    as (H1024 & _).
  pose proof (nextRetryDelay_formula no_delay 1025
                {| message := "timeout" |} empty_world ltac:(lia))
    as (_ & H1025 & _).
  destruct (H3 ltac:(left; simpl; lia)) as [E3 _].
  destruct (H7 ltac:(left; simpl; lia)) as [E7 _].
  destruct (H1024 ltac:(right; split; [reflexivity | lia])) as [E1024 _].
  destruct (H1025 eq_refl ltac:(lia)) as (_ & E1025 & L1025).
  split; [rewrite E3; reflexivity |].
  split; [rewrite E7; reflexivity |].
  split; [rewrite E1024; reflexivity |].
  split; [exact E1025 |].
  rewrite L1025. reflexivity.
Defined.

(** ** Retry wrapper *)

Section RetryFacts.
Context {T : Type}.
Variable ro : RetryOptions.t.

Local Abbreviation R := (RetryOptions.retries ro).

Lemma afterAttempt_retry n e :
  Z.of_nat n <= R ->
  afterAttempt (T:=T) ro n (inl e) = Waiting (backoff ro n) n.
Proof.
  intros H. unfold afterAttempt.
  destruct (Z.leb_spec (Z.of_nat n) R); [reflexivity | lia].
Qed.

Lemma afterAttempt_exhausted n e :
  R < Z.of_nat n ->
  afterAttempt (T:=T) ro n (inl e) = Exhausted e.
Proof.
  intros H. unfold afterAttempt.
  destruct (Z.leb_spec (Z.of_nat n) R); [lia | reflexivity].
Qed.
End RetryFacts.

(** ** Batch coordinator *)

Lemma finish_cases (n : Z) (l : Loop) :
  finish n l = l \/
  exists rs,
    exitCode l = None /\ results l = Some rs /\
    finish n l =
      exit 0
        (set_world
           (log (Completed n
                   (Z.of_nat (List.length (List.filter is_fulfilled rs)))
                   (Z.of_nat (List.length (List.filter is_rejected rs))))
              (world l)) l).
Proof.
  unfold finish. destruct (exitCode l) as [c |]; [now left |].
  destruct (results l) as [rs |]; [right; exists rs; auto | now left].
Qed.

Lemma finish_tasks (n : Z) (l : Loop) : tasks (finish n l) = tasks l.
Proof.
  destruct (finish_cases n l) as [-> | (rs & _ & _ & ->)]; reflexivity.
Qed.

Lemma finish_fs (n : Z) (l : Loop) : fs (world (finish n l)) = fs (world l).
Proof.
  destruct (finish_cases n l) as [-> | (rs & _ & _ & ->)]; reflexivity.
Qed.

Lemma finish_exited (n : Z) (l : Loop) (c : Z) :
  exitCode l = Some c -> finish n l = l.
Proof. unfold finish. now intros ->. Qed.

Lemma phases_alter (Q : Phase -> Prop) (i : nat) (p : Phase) (l : Loop) :
  Q p -> phases Q l -> phases Q (set_phase i p l).
Proof.
  unfold phases, set_phase. simpl. intros Hp Hl.
  apply Forall_alter; [exact Hl |]. intros t _ _. exact Hp.
Qed.

Lemma phases_add (Q : Phase -> Prop) (u : string) (p : Phase) (l : Loop) :
  Q p -> phases Q l -> phases Q (add_task u p l).
Proof.
  unfold phases, add_task. simpl. intros Hp Hl.
  apply Forall_app. split; [exact Hl |]. constructor; [exact Hp | constructor].
Qed.

Lemma targets_set_phase (i : nat) (p : Phase) (l : Loop) :
  List.map target (tasks (set_phase i p l)) = List.map target (tasks l).
Proof.
  unfold set_phase. simpl. generalize (tasks l). clear l.
  induction i as [|i IH]; intros [|t ts]; simpl; try reflexivity.
  f_equal. apply IH.
Qed.

Lemma results_fulfilled (l : Loop) (rs : list Settled) :
  phases not_rejected l -> results l = Some rs ->
  List.length rs = List.length (tasks l) /\
  List.filter is_fulfilled rs = rs /\
  List.filter is_rejected rs = [].
Proof.
  unfold phases, results. intros Hph Hrs.
  apply mapM_Some_1 in Hrs.
  induction Hrs as [|t r ts rs Ht _ IH]; [auto |].
  apply Forall_cons in Hph as [Hp Hph].
  destruct (IH Hph) as (Hlen & Hful & Hrej).
  unfold settledOf in Ht. destruct (phase t) as [| st | r'] eqn:E; try discriminate.
  injection Ht as ->.
  destruct r as [v | e]; [| now destruct (Hp e)].
  simpl. rewrite Hlen, Hful, Hrej. auto.
Qed.

Section CoordinatorFacts.
Variable md5 : string -> list byte.
Variable yamlDump : Metadata.t -> string.
Variable resolve : string -> string -> string.
Variable outputPath : string.
Variable options : CrawlOptions.
Variable env : nat -> nat -> Attempt.

Local Abbreviation resume :=
  (processUrl_resume md5 yamlDump resolve outputPath).
Local Abbreviation step' :=
  (step md5 yamlDump resolve outputPath options env).
Local Abbreviation events' :=
  (events md5 yamlDump resolve outputPath options env).
Local Abbreviation crawl' :=
  (crawl md5 yamlDump resolve outputPath options env).

Lemma step_exited i l c : exitCode l = Some c -> step' i l = l.
Proof. unfold step. now intros ->. Qed.

Lemma events_exited n schedule l c :
  exitCode l = Some c -> events' n schedule l = l.
Proof.
  intros H. induction schedule as [|i schedule IH]; [reflexivity |].
  unfold events in *. simpl.
  rewrite (step_exited _ _ _ H), (finish_exited _ _ _ H). exact IH.
Qed.

Lemma events_app n s1 s2 l :
  events' n (s1 ++ s2) l = events' n s2 (events' n s1 l).
Proof. unfold events. apply fold_left_app. Qed.

Lemma events_invariant (P : Loop -> Prop) n :
  (forall i l, P l -> P (finish n (step' i l))) ->
  forall schedule l, P l -> P (events' n schedule l).
Proof.
  intros Hstep schedule.
  induction schedule as [|i schedule IH]; intros l Hl; [exact Hl |].
  unfold events in *. simpl. apply IH, Hstep, Hl.
Qed.

(** The catch block: the failure is recorded when [--continue] is given;
    otherwise the process exits with status 1 after two error lines. *)
Lemma on_error_cases i siteUrl e l :
  (continue options = true /\
   on_error options i siteUrl e l =
     set_phase i (Finished (fulfilled (Failure siteUrl e)))
       (set_world (log (ErrorProcessing siteUrl (message e)) (world l)) l)) \/
  (continue options = false /\
   on_error options i siteUrl e l =
     exit 1
       (set_world
          (log StoppingDueToError
             (log (ErrorProcessing siteUrl (message e)) (world l))) l)).
Proof.
  unfold on_error. destruct (continue options); [left | right]; auto.
Qed.

(** What one event can do. *)
Lemma step_cases i l :
  step' i l = l \/
  (exitCode l = None /\
   exists p w, reachable_phase options p /\
     step' i l = set_phase i p (set_world w l)) \/
  (exitCode l = None /\ continue options = false /\
   exists t msg w,
     tasks l !! i = Some t /\
     step' i l = exit 1 (set_world w l) /\
     console_ends [ErrorProcessing (target t) msg; StoppingDueToError] w).
Proof.
  unfold step.
  destruct (exitCode l) as [c |] eqn:Hexit; [now left |].
  destruct (tasks l !! i) as [t |] eqn:Ht; [| now left].
  destruct (phase t) as [| [n | d n | v | e] | r] eqn:Hp; try now left.
  - destruct (forallb started (take i (tasks l))); [| now left].
    right; left. split; [reflexivity |]. eexists _, _. split; [| reflexivity].
    exact I.
  - destruct (resume (target t) (env i n) (world l)) as [[e | v] w] eqn:Hr.
    + unfold afterAttempt.
      destruct (Z.of_nat n <=? RetryOptions.retries (retryOptions options)).
      * right; left. split; [reflexivity |].
        eexists _, _. split; [| reflexivity]. exact I.
      * destruct (on_error_cases i (target t) e
                    (set_world (onFailedAttempt options (Z.of_nat n) e w) l))
          as [[Hc ->] | [Hc ->]].
        -- right; left. split; [reflexivity |].
           eexists _, _. split; [| reflexivity]. exact Hc.
        -- right; right. split; [reflexivity |]. split; [exact Hc |].
           eexists t, (message e), _. split; [reflexivity |].
           split; [reflexivity |].
           eexists. simpl. rewrite <- app_assoc. reflexivity.
    + simpl. right; left. split; [reflexivity |].
      eexists _, _. split; [| reflexivity].
      destruct (processUrl_resume_inr _ _ _ _ _ _ _ _ _ Hr)
        as (r & body & _ & _ & _ & _ & -> & _).
      exact I.
  - right; left. split; [reflexivity |].
    eexists _, _. split; [| reflexivity]. exact I.
Qed.
End CoordinatorFacts.

Section FanOut.
Variable options : CrawlOptions.

Lemma throttledFn_cases i siteUrl l :
  throttledFn options i siteUrl l =
    add_task siteUrl (Running (Attempting 1))
      (set_world (processUrl_begin siteUrl (world l)) l) \/
  (0 < rateLimitPerSecond options /\
   throttledFn options i siteUrl l = add_task siteUrl Queued l).
Proof.
  unfold throttledFn, pThrottle, start_operation.
  destruct (Z.ltb_spec 0 (rateLimitPerSecond options)); [| now left].
  destruct (Z.of_nat i <? rateLimitPerSecond options); [now left | now right].
Qed.

Lemma submit_targets n sites : forall i l,
  List.map target (tasks (submit options n i sites l)) =
    (List.map target (tasks l) ++ sites)%list.
Proof.
  induction sites as [|u sites IH]; intros i l; simpl.
  - now rewrite app_nil_r.
  - rewrite IH.
    destruct (throttledFn_cases i u
                (set_world (log (Processing (Z.of_nat i + 1) n u) (world l)) l))
      as [-> | [_ ->]]; simpl; rewrite List.map_app, <- app_assoc; reflexivity.
Qed.

Lemma submit_exitCode n sites : forall i l,
  exitCode (submit options n i sites l) = exitCode l.
Proof.
  induction sites as [|u sites IH]; intros i l; simpl; [reflexivity |].
  rewrite IH.
  destruct (throttledFn_cases i u
              (set_world (log (Processing (Z.of_nat i + 1) n u) (world l)) l))
    as [-> | [_ ->]]; reflexivity.
Qed.

Lemma submit_fs n sites : forall i l,
  fs (world (submit options n i sites l)) = fs (world l).
Proof.
  induction sites as [|u sites IH]; intros i l; simpl; [reflexivity |].
  rewrite IH.
  destruct (throttledFn_cases i u
              (set_world (log (Processing (Z.of_nat i + 1) n u) (world l)) l))
    as [-> | [_ ->]]; reflexivity.
Qed.

Lemma submit_phases (Q : Phase -> Prop) n sites :
  Q Queued -> Q (Running (Attempting 1)) ->
  forall i l, phases Q l -> phases Q (submit options n i sites l).
Proof.
  intros Hq Hr.
  induction sites as [|u sites IH]; intros i l Hl; simpl; [exact Hl |].
  apply IH.
  destruct (throttledFn_cases i u
              (set_world (log (Processing (Z.of_nat i + 1) n u) (world l)) l))
    as [-> | [_ ->]]; apply phases_add; assumption.
Qed.

(** With a rate limit of 0 every operation is started during the fan-out,
    before any attempt can settle. *)
Lemma submit_unthrottled n sites :
  rateLimitPerSecond options <= 0 ->
  forall i l, phases not_queued l ->
    phases not_queued (submit options n i sites l).
Proof.
  intros Hrate.
  induction sites as [|u sites IH]; intros i l Hl; simpl; [exact Hl |].
  apply IH.
  destruct (throttledFn_cases i u
              (set_world (log (Processing (Z.of_nat i + 1) n u) (world l)) l))
    as [-> | [Hpos _]]; [| lia].
  apply phases_add; [discriminate | exact Hl].
Qed.
End FanOut.

Lemma reachable_not_rejected options p :
  reachable_phase options p -> not_rejected p.
Proof.
  intros H e ->. exact H.
Qed.

Lemma reachable_no_failure options p :
  continue options = false -> reachable_phase options p -> no_failure p.
Proof.
  intros Hc H u e ->. simpl in H. congruence.
Qed.

Lemma lookup_target (l : Loop) (i : nat) (t : Task) :
  tasks l !! i = Some t -> In (target t) (List.map target (tasks l)).
Proof.
  intros H. apply in_map. apply list_elem_of_In.
  apply list_elem_of_lookup. eauto.
Qed.

Section RunFacts.
Variable md5 : string -> list byte.
Variable yamlDump : Metadata.t -> string.
Variable resolve : string -> string -> string.
Variable outputPath : string.
Variable options : CrawlOptions.
Variable env : nat -> nat -> Attempt.
Variable sites : list string.

Local Abbreviation resume :=
  (processUrl_resume md5 yamlDump resolve outputPath).
Local Abbreviation step' :=
  (step md5 yamlDump resolve outputPath options env).
Local Abbreviation events' :=
  (events md5 yamlDump resolve outputPath options env).
Local Abbreviation crawl' :=
  (crawl md5 yamlDump resolve outputPath options env).
Local Abbreviation N := (Z.of_nat (List.length sites)).

Lemma summary_invariant_finish l :
  summary_invariant sites l -> summary_invariant sites (finish N l).
Proof.
  intros Hinv.
  destruct (finish_cases N l) as [-> | (rs & Hnone & Hrs & ->)];
    [exact Hinv |].
  destruct Hinv as (Hph & Htg & Hex).
  destruct (results_fulfilled l rs Hph Hrs) as (Hlen & Hful & Hrej).
  split; [exact Hph |]. split; [exact Htg |].
  intros _. split; [exists rs; exact Hrs |].
  exists (console (world l)). simpl.
  rewrite Hful, Hrej, Hlen, <- Htg, List.length_map. reflexivity.
Qed.

Lemma summary_invariant_step i l :
  summary_invariant sites l -> summary_invariant sites (step' i l).
Proof.
  intros Hinv.
  destruct (step_cases md5 yamlDump resolve outputPath options env i l)
    as [-> | [(Hnone & p & w & Hp & ->) | (Hnone & Hc & t & msg & w & Ht & -> & _)]];
    [exact Hinv | |]; destruct Hinv as (Hph & Htg & Hex).
  - split; [| split].
    + apply phases_alter; [eapply reachable_not_rejected; eauto | exact Hph].
    + rewrite targets_set_phase. exact Htg.
    + simpl. rewrite Hnone. discriminate.
  - split; [exact Hph |]. split; [exact Htg |]. simpl. discriminate.
Qed.

Lemma halt_invariant_finish l :
  halt_invariant sites l -> halt_invariant sites (finish N l).
Proof.
  intros Hinv.
  destruct (finish_cases N l) as [-> | (rs & Hnone & Hrs & ->)];
    [exact Hinv |].
  destruct Hinv as (Hph & Htg & H1 & Hcodes).
  split; [exact Hph |]. split; [exact Htg |]. split.
  - simpl. discriminate.
  - simpl. intros c [= <-]. now left.
Qed.

Lemma halt_invariant_step i l :
  continue options = false ->
  halt_invariant sites l -> halt_invariant sites (step' i l).
Proof.
  intros Hcont Hinv.
  destruct (step_cases md5 yamlDump resolve outputPath options env i l)
    as [-> | [(Hnone & p & w & Hp & ->) | (Hnone & Hc & t & msg & w & Ht & -> & Hends)]];
    [exact Hinv | |]; destruct Hinv as (Hph & Htg & H1 & Hcodes).
  - split; [| split; [| split]].
    + apply phases_alter; [eapply reachable_no_failure; eauto | exact Hph].
    + rewrite targets_set_phase. exact Htg.
    + simpl. rewrite Hnone. discriminate.
    + simpl. rewrite Hnone. discriminate.
  - split; [exact Hph |]. split; [exact Htg |]. split.
    + intros _. exists (target t), msg. split; [| exact Hends].
      rewrite <- Htg. exact (lookup_target _ _ _ Ht).
    + simpl. intros c [= <-]. now right.
Qed.

Lemma summary_invariant_initial w :
  summary_invariant sites (finish N (submit options N 0 sites (initial w))).
Proof.
  apply summary_invariant_finish. split; [| split].
  - apply submit_phases; try discriminate. constructor.
  - rewrite submit_targets. reflexivity.
  - rewrite submit_exitCode. discriminate.
Qed.

Lemma halt_invariant_initial w :
  halt_invariant sites (finish N (submit options N 0 sites (initial w))).
Proof.
  apply halt_invariant_finish. split; [| split; [| split]].
  - apply submit_phases; try discriminate. constructor.
  - rewrite submit_targets. reflexivity.
  - rewrite submit_exitCode. discriminate.
  - intros c. rewrite submit_exitCode. discriminate.
Qed.

Lemma crawl_summary_invariant w schedule :
  summary_invariant sites (crawl' sites w schedule).
Proof.
  unfold crawl. apply events_invariant.
  - intros i l Hl. now apply summary_invariant_finish, summary_invariant_step.
  - apply summary_invariant_initial.
Qed.

Lemma crawl_halt_invariant w schedule :
  continue options = false ->
  halt_invariant sites (crawl' sites w schedule).
Proof.
  intros Hc. unfold crawl. apply events_invariant.
  - intros i l Hl. now apply halt_invariant_finish, halt_invariant_step.
  - apply halt_invariant_initial.
Qed.

Lemma crawl_app w s1 s2 :
  crawl' sites w (s1 ++ s2) = events' N s2 (crawl' sites w s1).
Proof. unfold crawl. apply events_app. Qed.

(** An attempt in flight settles: the event in terms of the wrapper's
    next state. *)
Lemma step_attempting i l t n r w :
  exitCode l = None ->
  tasks l !! i = Some t ->
  phase t = Running (Attempting n) ->
  resume (target t) (env i n) (world l) = (r, w) ->
  step' i l =
    let w' :=
      match r with
      | inl e => onFailedAttempt options (Z.of_nat n) e w
      | inr _ => w
      end in
    match afterAttempt (retryOptions options) n r with
    | Done v => set_phase i (Finished (fulfilled v)) (set_world w' l)
    | Waiting d m => set_phase i (Running (Waiting d m)) (set_world w' l)
    | Exhausted e => on_error options i (target t) e (set_world w' l)
    | Attempting _ => l
    end.
Proof.
  intros Hexit Ht Hp Hr. unfold step. rewrite Hexit, Ht, Hp, Hr. reflexivity.
Qed.
End RunFacts.

(** Every run, with or without [--continue]: no promise of the fan-out is
    ever rejected, so when the summary is printed it counts every target as
    successful and none as failed. *)
Lemma summary_counts_settled_promises
    (md5 : string -> list byte) (yamlDump : Metadata.t -> string)
    (resolve : string -> string -> string) (outputPath : string)
    (options : CrawlOptions) (env : nat -> nat -> Attempt)
    (sites : list string) (w : World) (schedule : list nat) :
  let l := crawl md5 yamlDump resolve outputPath options env sites w schedule in
  let n := Z.of_nat (List.length sites) in
  List.map target (tasks l) = sites /\
  (exitCode l = Some 0 ->
   exists rs,
     results l = Some rs /\
     List.length rs = List.length sites /\
     List.filter is_rejected rs = [] /\
     console_ends [Completed n n 0] (world l)).
Proof.
  intros l n.
  destruct (crawl_summary_invariant md5 yamlDump resolve outputPath options env
              sites w schedule) as (Hph & Htg & Hex).
  fold l in Hph, Htg, Hex. split; [exact Htg |].
  intros H0. destruct (Hex H0) as [[rs Hrs] Hends].
  destruct (results_fulfilled l rs Hph Hrs) as (Hlen & _ & Hrej).
  exists rs. split; [exact Hrs |]. split; [| split; [exact Hrej | exact Hends]].
  rewrite Hlen, <- Htg, List.length_map. reflexivity.
Qed.

(** C1 at targets [A; B; C] with [--continue], where every attempt at B
    fails: each target has one outcome, two of them [Success] and that of B
    a [Failure]; yet the summary line reads 3 URLs, 3 successful, 0 failed.
    The exit status is 0. *)
Theorem continue_summary_ABC :
  let l :=
    sample_crawl continuing B_always_fails ABC empty_world B_exhausted_last in
  let rs :=
    [fulfilled (Success "A" "/out/41.md");
     fulfilled (Failure "B" {| message := "connect ECONNREFUSED" |});
     fulfilled (Success "C" "/out/43.md")] in
  results l = Some rs /\
  List.length (List.filter succeeded rs) = 2%nat /\
  List.length (List.filter (fun r => negb (succeeded r)) rs) = 1%nat /\
  List.last (console (world l)) StoppingDueToError = Completed 3 3 0 /\
  exitCode l = Some 0.
Proof. vm_compute. auto 6. Qed.

(** With a rate limit of 0 every target's operation has been started in
    every state of the run: the fan-out starts them all before any attempt
    settles. *)
Lemma unthrottled_all_started
    (md5 : string -> list byte) (yamlDump : Metadata.t -> string)
    (resolve : string -> string -> string) (outputPath : string)
    (options : CrawlOptions) (env : nat -> nat -> Attempt)
    (sites : list string) (w : World) (schedule : list nat) :
  rateLimitPerSecond options <= 0 ->
  phases not_queued
    (crawl md5 yamlDump resolve outputPath options env sites w schedule).
Proof.
  intros Hrate. unfold crawl. apply events_invariant.
  - intros i l Hl. unfold phases. rewrite finish_tasks.
    destruct (step_cases md5 yamlDump resolve outputPath options env i l)
      as [-> | [(_ & p & w' & Hp & ->) | (_ & _ & t & msg & w' & _ & -> & _)]].
    + exact Hl.
    + apply phases_alter; [| exact Hl]. intros ->. exact Hp.
    + exact Hl.
  - unfold phases. rewrite finish_tasks.
    apply submit_unthrottled; [exact Hrate | constructor].
Qed.

(** C2 (as the coordinator behaves). Without [--continue], in every state
    of every run: no failure is recorded as an outcome and the exit status
    is 0 or 1; status 1 comes with the error report of one target as the
    last output; once the process has exited no later event changes
    anything (no queued target is started, nothing is written, no summary
    is printed); and when the attempt in flight of a target fails with no
    retry left, that event exits with status 1, reports the failure, starts
    no target and writes no file. *)
Theorem halt_on_first_failure
    (md5 : string -> list byte) (yamlDump : Metadata.t -> string)
    (resolve : string -> string -> string) (outputPath : string)
    (options : CrawlOptions) (env : nat -> nat -> Attempt)
    (sites : list string) (w : World) (schedule : list nat) :
  continue options = false ->
  let run := crawl md5 yamlDump resolve outputPath options env sites w in
  let l := run schedule in
  phases no_failure l /\
  (forall c, exitCode l = Some c -> c = 0 \/ c = 1) /\
  (exitCode l = Some 1 ->
   exists siteUrl msg,
     In siteUrl sites /\
     console_ends [ErrorProcessing siteUrl msg; StoppingDueToError] (world l)) /\
  (forall c later, exitCode l = Some c -> run (schedule ++ later)%list = l) /\
  (forall i t n e w',
     exitCode l = None ->
     tasks l !! i = Some t ->
     phase t = Running (Attempting n) ->
     processUrl_resume md5 yamlDump resolve outputPath
       (target t) (env i n) (world l) = (inl e, w') ->
     retries options < Z.of_nat n ->
     let l' := run (schedule ++ [i])%list in
     exitCode l' = Some 1 /\
     tasks l' = tasks l /\
     fs (world l') = fs (world l) /\
     console_ends
       [ErrorProcessing (target t) (message e); StoppingDueToError] (world l')).
Proof.
  intros Hc run l.
  destruct (crawl_halt_invariant md5 yamlDump resolve outputPath options env
              sites w schedule Hc) as (Hph & _ & H1 & Hcodes).
  fold run in Hph, H1, Hcodes. fold l in Hph, H1, Hcodes.
  split; [exact Hph |]. split; [exact Hcodes |]. split; [exact H1 |]. split.
  - intros c later Hexit. unfold run. rewrite crawl_app.
    apply (events_exited _ _ _ _ _ _ _ _ _ c). exact Hexit.
  - intros i t n e w' Hexit Ht Hp Hr Hn l'.
    assert (l' = exit 1
                   (set_world
                      (log StoppingDueToError
                         (log (ErrorProcessing (target t) (message e))
                            (onFailedAttempt options (Z.of_nat n) e w'))) l))
      as ->.
    { unfold l', run. rewrite crawl_app. fold run. fold l.
      unfold events. simpl.
      rewrite (step_attempting _ _ _ _ _ _ _ _ _ _ _ _ Hexit Ht Hp Hr).
      cbv zeta. rewrite afterAttempt_exhausted by exact Hn.
      unfold on_error. rewrite Hc. apply (finish_exited _ _ 1). reflexivity. }
    split; [reflexivity |]. split; [reflexivity |]. split.
    + simpl. eapply processUrl_resume_inl_fs. exact Hr.
    + eexists. simpl. rewrite <- app_assoc. reflexivity.
Qed.

Lemma halt_on_first_failure_witness :
  let run := sample_crawl defaults B_always_fails ABC empty_world in
  exitCode (run B_fourth_attempt) = None /\
  exitCode (run (B_fourth_attempt ++ [1%nat])%list) = Some 1 /\
  console_ends
    [ErrorProcessing "B" "connect ECONNREFUSED"; StoppingDueToError]
    (world (run (B_fourth_attempt ++ [1%nat])%list)) /\
  run ((B_fourth_attempt ++ [1%nat]) ++ [0; 2; 1]%nat)%list =
    run (B_fourth_attempt ++ [1%nat])%list.
Proof.
  intros run.
  pose proof (halt_on_first_failure sample_digest sample_yaml sample_resolve
                "/out" defaults B_always_fails ABC empty_world
                B_fourth_attempt eq_refl) as (_ & _ & _ & _ & Hstep).
  pose proof (halt_on_first_failure sample_digest sample_yaml sample_resolve
                "/out" defaults B_always_fails ABC empty_world
                (B_fourth_attempt ++ [1%nat]) eq_refl) as (_ & _ & _ & Hhalt & _).
  assert (exitCode (run B_fourth_attempt) = None) as Hnone
    by (vm_compute; reflexivity).
  destruct (Hstep 1%nat {| target := "B"; phase := Running (Attempting 4) |}
              4%nat {| message := "connect ECONNREFUSED" |}
              (world (run B_fourth_attempt)) Hnone)
    as (Hexit & _ & _ & Hends).
  - vm_compute; reflexivity.
  - reflexivity.
  - vm_compute; reflexivity.
  - simpl. lia.
  - split; [exact Hnone |]. split; [exact Hexit |]. split; [exact Hends |].
    exact (Hhalt 1 [0; 2; 1]%nat Hexit).
Defined.

(** C2 as stated fails on its example: with the default options, targets
    [A; B; C] and every attempt at B failing, the run that ends with status
    1 at B's fourth failure has started C and written its file before. With
    a rate limit of 0, C is started during the fan-out, before any event. *)
Lemma halt_on_first_failure_counterexample :
  let l := sample_crawl defaults B_always_fails ABC empty_world B_exhausted_last in
  exitCode l = Some 1 /\
  tasks l !! 2%nat =
    Some {| target := "C";
            phase := Finished (fulfilled (Success "C" "/out/43.md")) |} /\
  is_Some (fs (world l) !! "/out/43.md") /\
  tasks (sample_crawl unthrottled B_always_fails ABC empty_world []) !! 2%nat =
    Some {| target := "C"; phase := Running (Attempting 1) |} /\
  ~ (forall schedule t,
       exitCode (sample_crawl defaults B_always_fails ABC empty_world schedule) = Some 1 ->
       tasks (sample_crawl defaults B_always_fails ABC empty_world schedule) !! 2%nat = Some t ->
       started t = false).
Proof.
  cbv zeta. split; [vm_compute; reflexivity |].
  split; [vm_compute; reflexivity |].
  split; [eexists; vm_compute; reflexivity |].
  split; [vm_compute; reflexivity |].
  intros H.
  assert (exitCode (sample_crawl defaults B_always_fails ABC empty_world
                      B_exhausted_last) = Some 1) as Hexit
    by (vm_compute; reflexivity).
  assert (tasks (sample_crawl defaults B_always_fails ABC empty_world
                   B_exhausted_last) !! 2%nat =
            Some {| target := "C";
                    phase := Finished (fulfilled (Success "C" "/out/43.md")) |})
    as Htask by (vm_compute; reflexivity).
  specialize (H _ _ Hexit Htask). discriminate H.
Qed.

Lemma lookup_set_phase (i : nat) (p : Phase) (l : Loop) (t : Task) :
  tasks l !! i = Some t ->
  tasks (set_phase i p l) !! i = Some {| target := target t; phase := p |}.
Proof.
  intros H. unfold set_phase. simpl.
  rewrite list_lookup_alter_eq, H. reflexivity.
Qed.

(** The backoff wait of a target ends: its next attempt starts. *)
Lemma step_waiting
    (md5 : string -> list byte) (yamlDump : Metadata.t -> string)
    (resolve : string -> string -> string) (outputPath : string)
    (options : CrawlOptions) (env : nat -> nat -> Attempt)
    (i : nat) (l : Loop) (t : Task) (d : Z) (n : nat) :
  exitCode l = None ->
  tasks l !! i = Some t ->
  phase t = Running (Waiting d n) ->
  step md5 yamlDump resolve outputPath options env i l =
    set_phase i (Running (Attempting (S n)))
      (set_world (processUrl_begin (target t) (world l)) l).
Proof.
  intros Hexit Ht Hp. unfold step. rewrite Hexit, Ht, Hp. reflexivity.
Qed.

(** C7. When the extraction result has no body (no result, or a content
    that is absent or empty), the attempt throws [No content found] and the
    file system is left as it was. The throw is an ordinary attempt failure
    of the retry wrapper: with a retry left the target waits for its backoff
    and is attempted again, the process still running; with none left and
    [--continue] the failure is recorded as the target's outcome. *)
Theorem empty_content_is_a_failed_attempt
    (md5 : string -> list byte) (yamlDump : Metadata.t -> string)
    (resolve : string -> string -> string) (outputPath : string)
    (options : CrawlOptions) (env : nat -> nat -> Attempt)
    (i : nat) (l : Loop) (t : Task) (n : nat) :
  no_body (parsed (env i n)) ->
  exitCode l = None ->
  tasks l !! i = Some t ->
  phase t = Running (Attempting n) ->
  let step' := step md5 yamlDump resolve outputPath options env in
  let error := {| message := "No content found" |} in
  processUrl_resume md5 yamlDump resolve outputPath
    (target t) (env i n) (world l) =
    (inl error, log (NoContentFound (target t)) (world l)) /\
  fs (world (step' i l)) = fs (world l) /\
  (Z.of_nat n <= retries options ->
   exitCode (step' i l) = None /\
   tasks (step' i l) !! i =
     Some {| target := target t;
             phase := Running (Waiting (backoff (retryOptions options) n) n) |} /\
   tasks (step' i (step' i l)) !! i =
     Some {| target := target t; phase := Running (Attempting (S n)) |}) /\
  (retries options < Z.of_nat n -> continue options = true ->
   exitCode (step' i l) = None /\
   tasks (step' i l) !! i =
     Some {| target := target t;
             phase := Finished (fulfilled (Failure (target t) error)) |}).
Proof.
  intros Hbody Hexit Ht Hp step' error.
  pose proof (processUrl_resume_no_body md5 yamlDump resolve outputPath
                (target t) (env i n) (world l) Hbody) as Hr.
  fold error in Hr.
  pose proof (step_attempting md5 yamlDump resolve outputPath options env
                i l t n _ _ Hexit Ht Hp Hr) as Hstep.
  cbv zeta in Hstep. fold step' in Hstep.
  split; [exact Hr |]. split; [| split].
  - rewrite Hstep. unfold afterAttempt, on_error.
    destruct (Z.of_nat n <=? RetryOptions.retries (retryOptions options));
      [reflexivity |].
    destruct (continue options); reflexivity.
  - intros Hn.
    rewrite (afterAttempt_retry (retryOptions options)) in Hstep by exact Hn.
    rewrite Hstep. clear Hstep.
    set (d := backoff (retryOptions options) n).
    set (l1 := set_phase i (Running (Waiting d n)) _).
    assert (tasks l1 !! i =
              Some {| target := target t; phase := Running (Waiting d n) |})
      as Ht1 by (apply lookup_set_phase; exact Ht).
    split; [exact Hexit |]. split; [exact Ht1 |].
    unfold step'.
    rewrite (step_waiting md5 yamlDump resolve outputPath options env
               i l1 _ d n Hexit Ht1 eq_refl).
    exact (lookup_set_phase i _ (set_world _ l1) _ Ht1).
  - intros Hn Hc.
    rewrite (afterAttempt_exhausted (retryOptions options)) in Hstep
      by exact Hn.
    rewrite Hstep. unfold on_error. rewrite Hc.
    split; [exact Hexit |]. now apply lookup_set_phase.
Qed.

Lemma empty_content_is_a_failed_attempt_witness :
  let l := sample_crawl unthrottled B_blank_first ABC empty_world [] in
  let step' :=
    step sample_digest sample_yaml sample_resolve "/out" unthrottled
      B_blank_first in
  fs (world (step' 1%nat l)) = fs (world l) /\
  exitCode (step' 1%nat l) = None /\
  tasks (step' 1%nat l) !! 1%nat =
    Some {| target := "B"; phase := Running (Waiting 1000 1) |} /\
  tasks (step' 1%nat (step' 1%nat l)) !! 1%nat =
    Some {| target := "B"; phase := Running (Attempting 2) |}.
Proof.
  intros l step'.
  assert (no_body (parsed (B_blank_first 1 1))) as Hbody.
  { right. eexists. split; [reflexivity |]. right. reflexivity. }
  assert (exitCode l = None) as Hexit by (vm_compute; reflexivity).
  assert (tasks l !! 1%nat =
            Some {| target := "B"; phase := Running (Attempting 1) |}) as Ht
    by (vm_compute; reflexivity).
  destruct (empty_content_is_a_failed_attempt sample_digest sample_yaml
              sample_resolve "/out" unthrottled B_blank_first 1%nat l
              {| target := "B"; phase := Running (Attempting 1) |} 1%nat
              Hbody Hexit Ht eq_refl)
    as (_ & Hfs & Hretry & _).
  destruct Hretry as (H1 & H2 & H3); [simpl; lia |].
  split; [exact Hfs |]. split; [exact H1 |]. split; [exact H2 | exact H3].
Defined.

(** * Further properties of the code *)

(** ** Filename deriver: collisions *)

Lemma hexDigits_NoDup : List.NoDup hexDigits.
Proof.
  unfold hexDigits; simpl.
  repeat (constructor; [simpl; intros H; repeat (destruct H as [H | H]; [discriminate H |]); exact H |]).
  constructor.
Qed.

Lemma hexDigit_inj (a b : N) :
  (a < 16)%N -> (b < 16)%N -> hexDigit a = hexDigit b -> a = b.
Proof.
  intros Ha Hb H. unfold hexDigit in H.
  apply N2Nat.inj.
  apply (proj1 (List.NoDup_nth hexDigits "0"%char) hexDigits_NoDup);
    [simpl; lia | simpl; lia | exact H].
Qed.

Lemma byte_to_N_inj (x y : byte) : Byte.to_N x = Byte.to_N y -> x = y.
Proof.
  intros H. pose proof (Byte.of_to_N x) as Hx. rewrite H in Hx.
  rewrite Byte.of_to_N in Hx. congruence.
Qed.

Lemma hex_inj (a : list byte) : forall b, hex a = hex b -> a = b.
Proof.
  induction a as [|x a IH]; intros [|y b] H; simpl in H; try discriminate;
    [reflexivity |].
  injection H as Hhi Hlo Hrest.
  pose proof (Byte.to_N_bounded x) as Bx. pose proof (Byte.to_N_bounded y) as By.
  apply hexDigit_inj in Hhi;
    [| apply N.Div0.div_lt_upper_bound; lia | apply N.Div0.div_lt_upper_bound; lia].
  apply hexDigit_inj in Hlo; [| apply N.mod_lt; lia | apply N.mod_lt; lia].
  f_equal; [| now apply IH].
  apply byte_to_N_inj.
  rewrite (N.div_mod' (Byte.to_N x) 16), (N.div_mod' (Byte.to_N y) 16).
  now rewrite Hhi, Hlo.
Qed.

(** X1. Two URLs get the same file name exactly when their digests are
    equal: the hexadecimal encoding and the extension lose nothing. *)
Theorem urlToFilename_collides_iff
    (md5 : string -> list byte) (u1 u2 : string) :
  urlToFilename md5 u1 = urlToFilename md5 u2 <-> md5 u1 = md5 u2.
Proof.
  split.
  - intros H. apply hex_inj. apply chars_inj.
    apply (f_equal chars) in H. rewrite !urlToFilename_chars in H.
    now apply app_inv_tail in H.
  - intros H. unfold urlToFilename. now rewrite H.
Qed.

(** ** Per-URL operation: what an attempt touches *)

Section AttemptEffects.
Variable md5 : string -> list byte.
Variable yamlDump : Metadata.t -> string.
Variable resolve : string -> string -> string.
Variable outputPath : string.

Local Abbreviation resume :=
  (processUrl_resume md5 yamlDump resolve outputPath).
Local Abbreviation path_of :=
  (fun u => resolve outputPath (urlToFilename md5 u)).

(** An attempt leaves the file system as it was or stores one file, that of
    its URL. *)
Lemma processUrl_resume_fs siteUrl a w :
  fs (snd (resume siteUrl a w)) = fs w \/
  exists data, fs (snd (resume siteUrl a w)) = <[path_of siteUrl := data]> (fs w).
Proof.
  destruct (resume siteUrl a w) as [[e | o] w'] eqn:Hr.
  - left. simpl. eapply processUrl_resume_inl_fs. exact Hr.
  - right. destruct (processUrl_resume_inr _ _ _ _ _ _ _ _ _ Hr)
      as (r & body & _ & _ & _ & _ & _ & ->).
    eexists. reflexivity.
Qed.

(** The result of an attempt (not its effect) does not depend on the
    world. *)
Lemma processUrl_resume_fst siteUrl a w1 w2 :
  fst (resume siteUrl a w1) = fst (resume siteUrl a w2).
Proof.
  unfold processUrl_resume.
  destruct (parsed a) as [e | [r |]]; try reflexivity.
  destruct (truthy (Result.content r)); try reflexivity.
  destruct (writeRejects a); reflexivity.
Qed.
End AttemptEffects.

(** X2. Whatever an attempt meets, it changes no path other than the file
    derived from its own URL: files of other URLs and files that were in the
    directory before keep their contents. *)
Theorem processUrl_touches_only_its_file
    (md5 : string -> list byte) (yamlDump : Metadata.t -> string)
    (resolve : string -> string -> string) (outputPath siteUrl : string)
    (a : Attempt) (w : World) (p : string) :
  p <> resolve outputPath (urlToFilename md5 siteUrl) ->
  fs (snd (processUrl md5 yamlDump resolve outputPath siteUrl a w)) !! p =
    fs w !! p.
Proof.
  intros Hp. unfold processUrl.
  destruct (processUrl_resume_fs md5 yamlDump resolve outputPath siteUrl a
              (processUrl_begin siteUrl w)) as [-> | [data ->]].
  - reflexivity.
  - simpl. apply lookup_insert_ne. congruence.
Qed.

Lemma processUrl_touches_only_its_file_witness :
  fs (snd (processUrl sample_digest sample_yaml sample_resolve "/out" "A" served
             {| fs := {[ "/out/42.md" := "kept" ]}; console := [] |}))
    !! "/out/42.md" = Some "kept".
Proof.
  rewrite (processUrl_touches_only_its_file sample_digest sample_yaml
             sample_resolve "/out" "A" served _ "/out/42.md").
  - vm_compute; reflexivity.
  - vm_compute. discriminate.
Defined.

(** X3. Processing a URL again overwrites: when an attempt succeeds, the
    file system afterwards is the same whether or not an earlier attempt at
    the same URL, successful or not, ran before it. *)
Theorem processUrl_overwrites
    (md5 : string -> list byte) (yamlDump : Metadata.t -> string)
    (resolve : string -> string -> string) (outputPath siteUrl : string)
    (a1 a2 : Attempt) (w : World) (o : Outcome) :
  fst (processUrl md5 yamlDump resolve outputPath siteUrl a2 w) = inr o ->
  let once := processUrl md5 yamlDump resolve outputPath siteUrl a2 w in
  let twice :=
    processUrl md5 yamlDump resolve outputPath siteUrl a2
      (snd (processUrl md5 yamlDump resolve outputPath siteUrl a1 w)) in
  fst twice = inr o /\ fs (snd twice) = fs (snd once).
Proof.
  intros Ho once twice. unfold once, twice, processUrl in *. clear once twice.
  set (w1 := snd (processUrl_resume md5 yamlDump resolve outputPath siteUrl a1
                    (processUrl_begin siteUrl w))).
  split.
  - rewrite <- Ho. apply processUrl_resume_fst.
  - destruct (processUrl_resume md5 yamlDump resolve outputPath siteUrl a2
                (processUrl_begin siteUrl w)) as [r2 w2] eqn:H2.
    simpl in Ho. subst r2.
    destruct (processUrl_resume_inr _ _ _ _ _ _ _ _ _ H2)
      as (r & body & Hp & Hc & Hne & Hw & _ & ->).
    assert (truthy (Result.content r) = true) as Ht
      by (rewrite Hc; destruct body; [congruence | reflexivity]).
    assert (or_else (Result.content r) "" = body) as Hb
      by (rewrite Hc; destruct body; [congruence | reflexivity]).
    unfold processUrl_resume at 1. rewrite Hp, Ht, Hw, Hb. simpl.
    destruct (processUrl_resume_fs md5 yamlDump resolve outputPath siteUrl a1
                (processUrl_begin siteUrl w)) as [E | [data E]];
      fold w1 in E; rewrite E; simpl; [reflexivity |].
    apply insert_insert_eq.
Qed.

Lemma processUrl_overwrites_witness :
  fs (snd (processUrl sample_digest sample_yaml sample_resolve "/out" "A" served
             (snd (processUrl sample_digest sample_yaml sample_resolve "/out"
                     "A" served empty_world)))) =
  fs (snd (processUrl sample_digest sample_yaml sample_resolve "/out" "A" served
             empty_world)).
Proof.
  apply (processUrl_overwrites sample_digest sample_yaml sample_resolve "/out"
           "A" served served empty_world (Success "A" "/out/41.md")).
  vm_compute; reflexivity.
Defined.

(** ** Backoff: bounds *)

(** X4. For a retry delay of at least 1 the delay printed after a failed
    attempt is a whole number of milliseconds; it never decreases from one
    failed attempt to the next, lies between 1 and 60000, is the retry
    delay itself after the first failure when that is at most 60000, and is
    60000 from the seventeenth failed attempt on. *)
Theorem nextRetryDelay_bounds (options : CrawlOptions) (n m : Z) :
  1 <= retryDelay options ->
  1 <= n <= m ->
  exists a b,
    nextRetryDelay options n = Finite a /\
    nextRetryDelay options m = Finite b /\
    1 <= a /\ a <= b /\ b <= 60000 /\
    (retryDelay options <= 60000 ->
     nextRetryDelay options 1 = Finite (retryDelay options)) /\
    (17 <= n -> a = 60000).
Proof.
  intros Hd Hnm.
  exists (Z.min (retryDelay options * 2 ^ (n - 1)) 60000),
         (Z.min (retryDelay options * 2 ^ (m - 1)) 60000).
  rewrite !nextRetryDelay_positive by lia.
  assert (0 < 2 ^ (n - 1)) as Hn by (apply Z.pow_pos_nonneg; lia).
  assert (2 ^ (n - 1) <= 2 ^ (m - 1)) as Hle
    by (apply Z.pow_le_mono_r; lia).
  split; [reflexivity |]. split; [reflexivity |].
  split; [apply Z.min_glb; nia |].
  split; [apply Z.min_le_compat_r; nia |].
  split; [apply Z.le_min_r |].
  split.
  - intros Hcap. change (2 ^ (1 - 1)) with 1. f_equal. lia.
  - intros H17.
    assert (2 ^ 16 <= 2 ^ (n - 1)) as H16 by (apply Z.pow_le_mono_r; lia).
    change (2 ^ 16) with 65536 in H16. apply Z.min_r. nia.
Qed.

Lemma nextRetryDelay_bounds_witness :
  nextRetryDelay defaults 5 = Finite 16000 /\
  nextRetryDelay defaults 6 = Finite 32000 /\
  nextRetryDelay defaults 17 = Finite 60000 /\
  nextRetryDelay defaults 2000 = Finite 60000.
Proof.
  destruct (nextRetryDelay_bounds defaults 5 6 ltac:(simpl; lia) ltac:(lia))
    as (a & b & Ha & Hb & _).
  destruct (nextRetryDelay_bounds defaults 17 2000 ltac:(simpl; lia)
              ltac:(lia))
    as (c & d & Hc & Hd & _ & Hcd & Hd' & _ & H17).
  assert (c = 60000) as Ec by (apply H17; lia).
  assert (d = 60000) as Ed by lia.
  assert (Finite a = Finite 16000) as Ea by (rewrite <- Ha; reflexivity).
  assert (Finite b = Finite 32000) as Eb by (rewrite <- Hb; reflexivity).
  split; [rewrite Ha; exact Ea |].
  split; [rewrite Hb; exact Eb |].
  split; [rewrite Hc, Ec; reflexivity |].
  rewrite Hd, Ed. reflexivity.
Defined.

(** ** Batch coordinator: edge cases and exit status *)

(** X5. An empty sitemap: whatever the options and the schedule, the run
    prints the summary [0 URLs, 0 successful, 0 failed] as its only line,
    writes nothing and exits with status 0. *)
Theorem crawl_empty_sitemap
    (md5 : string -> list byte) (yamlDump : Metadata.t -> string)
    (resolve : string -> string -> string) (outputPath : string)
    (options : CrawlOptions) (env : nat -> nat -> Attempt)
    (w : World) (schedule : list nat) :
  crawl md5 yamlDump resolve outputPath options env [] w schedule =
    {| tasks := [];
       world := {| fs := fs w; console := console w ++ [Completed 0 0 0] |};
       exitCode := Some 0 |}.
Proof.
  unfold crawl. simpl.
  apply (events_exited md5 yamlDump resolve outputPath options env 0 schedule
           _ 0).
  reflexivity.
Qed.


Section StepEffects.
Variable md5 : string -> list byte.
Variable yamlDump : Metadata.t -> string.
Variable resolve : string -> string -> string.
Variable outputPath : string.
Variable options : CrawlOptions.
Variable env : nat -> nat -> Attempt.

Local Abbreviation resume :=
  (processUrl_resume md5 yamlDump resolve outputPath).
Local Abbreviation step' :=
  (step md5 yamlDump resolve outputPath options env).
Local Abbreviation path_of :=
  (fun u => resolve outputPath (urlToFilename md5 u)).

Lemma step_no_task i l : tasks l !! i = None -> step' i l = l.
Proof. intros H. unfold step. rewrite H. now destruct (exitCode l). Qed.

(** What an event of a live process does to the callback it belongs to. *)
Lemma step_effect i l t :
  exitCode l = None ->
  tasks l !! i = Some t ->
  (blocked i t l /\ step' i l = l) \/
  (exists p w,
     advance options t p /\ fs w = fs (world l) /\
     step' i l = set_phase i p (set_world w l)) \/
  (exists n data w,
     phase t = Running (Attempting n) /\
     fs w = <[path_of (target t) := data]> (fs (world l)) /\
     step' i l =
       set_phase i
         (Finished (fulfilled (Success (target t) (path_of (target t)))))
         (set_world w l)) \/
  (exists n w,
     phase t = Running (Attempting n) /\
     retries options < Z.of_nat n /\
     continue options = false /\
     fs w = fs (world l) /\
     step' i l = exit 1 (set_world w l)).
Proof.
  intros Hexit Ht. unfold step, blocked. rewrite Hexit, Ht.
  destruct (phase t) as [| [n | d n | v | e] | r] eqn:Hp; try (left; now split).
  - destruct (forallb started (take i (tasks l))) eqn:Hfifo;
      [| left; now split].
    right; left. eexists _, _. refine (conj _ (conj _ eq_refl)).
    + now apply advance_start.
    + reflexivity.
  - destruct (resume (target t) (env i n) (world l)) as [[e | v] w] eqn:Hr.
    + pose proof (processUrl_resume_inl_fs _ _ _ _ _ _ _ _ _ Hr) as Hfs.
      unfold afterAttempt. cbn [retryOptions RetryOptions.retries].
      destruct (Z.leb_spec (Z.of_nat n) (retries options)) as [Hn | Hn].
      * right; left. eexists _, _. refine (conj _ (conj _ eq_refl)).
        -- now apply advance_retry.
        -- exact Hfs.
      * unfold on_error. destruct (continue options) eqn:Hc.
        -- right; left. eexists _, _. refine (conj _ (conj _ eq_refl)).
           ++ now apply (advance_failure options t n e).
           ++ exact Hfs.
        -- right; right; right. eexists n, _.
           refine (conj eq_refl (conj Hn (conj eq_refl (conj _ eq_refl)))).
           exact Hfs.
    + destruct (processUrl_resume_inr _ _ _ _ _ _ _ _ _ Hr)
        as (r & body & _ & _ & _ & _ & -> & ->).
      right; right; left. eexists n, _, _.
      refine (conj eq_refl (conj _ eq_refl)). reflexivity.
  - right; left. eexists _, _. refine (conj _ (conj _ eq_refl)).
    + exact (advance_resume options t d n Hp).
    + reflexivity.
Qed.
End StepEffects.

Section RunInvariants.
Variable md5 : string -> list byte.
Variable yamlDump : Metadata.t -> string.
Variable resolve : string -> string -> string.
Variable outputPath : string.
Variable options : CrawlOptions.
Variable env : nat -> nat -> Attempt.
Variable sites : list string.
Variable w0 : World.

Local Abbreviation step' :=
  (step md5 yamlDump resolve outputPath options env).
Local Abbreviation crawl' :=
  (crawl md5 yamlDump resolve outputPath options env).
Local Abbreviation path_of :=
  (fun u => resolve outputPath (urlToFilename md5 u)).
Local Abbreviation N := (Z.of_nat (List.length sites)).

(** A property of the state after the fan-out that every event and the
    continuation of [Promise.allSettled] keep holds of every state of the
    run. *)
Lemma crawl_invariant (P : Loop -> Prop) :
  P (submit options N 0 sites (initial w0)) ->
  (forall l, P l -> P (finish N l)) ->
  (forall i l t,
     P l -> exitCode l = None -> tasks l !! i = Some t -> P (step' i l)) ->
  forall schedule, P (crawl' sites w0 schedule).
Proof.
  intros Hinit Hfinish Hstep schedule. unfold crawl.
  apply events_invariant; [| now apply Hfinish].
  intros i l Hl. apply Hfinish.
  destruct (exitCode l) as [c |] eqn:Hexit;
    [now rewrite (step_exited _ _ _ _ _ _ _ _ c Hexit) |].
  destruct (tasks l !! i) as [t |] eqn:Ht;
    [now apply (Hstep i l t) | now rewrite step_no_task].
Qed.

Lemma crawl_targets schedule :
  List.map target (tasks (crawl' sites w0 schedule)) = sites.
Proof.
  apply (crawl_summary_invariant md5 yamlDump resolve outputPath options env
           sites w0 schedule).
Qed.

Lemma crawl_target_at schedule i t :
  tasks (crawl' sites w0 schedule) !! i = Some t ->
  sites !! i = Some (target t).
Proof.
  intros Ht. rewrite <- (crawl_targets schedule).
  rewrite list_lookup_fmap, Ht. reflexivity.
Qed.
End RunInvariants.

(** X6. With [--continue] no run ever exits with status 1 from the fan-out:
    in every state the process is still running or has exited with
    status 0. *)
Theorem continue_never_stops
    (md5 : string -> list byte) (yamlDump : Metadata.t -> string)
    (resolve : string -> string -> string) (outputPath : string)
    (options : CrawlOptions) (env : nat -> nat -> Attempt)
    (sites : list string) (w : World) (schedule : list nat) :
  continue options = true ->
  let l := crawl md5 yamlDump resolve outputPath options env sites w schedule in
  exitCode l = None \/ exitCode l = Some 0.
Proof.
  intros Hc l. unfold l.
  apply (crawl_invariant md5 yamlDump resolve outputPath options env sites w
           (fun l => exitCode l = None \/ exitCode l = Some 0)).
  - left. apply submit_exitCode.
  - intros l0 H.
    destruct (finish_cases (Z.of_nat (List.length sites)) l0)
      as [-> | (rs & _ & _ & ->)]; [exact H | now right].
  - intros i l0 t _ Hexit Ht.
    destruct (step_effect md5 yamlDump resolve outputPath options env i l0 t
                Hexit Ht)
      as [[_ ->] | [(p & w' & _ & _ & ->) | [(n & d & w' & _ & _ & ->)
         | (n & w' & _ & _ & Hno & _)]]];
      try (left; exact Hexit).
    congruence.
Qed.

Lemma continue_never_stops_witness :
  exitCode (sample_crawl continuing B_always_fails ABC empty_world
              B_fourth_attempt) = None /\
  exitCode (sample_crawl continuing B_always_fails ABC empty_world
              B_exhausted_last) = Some 0.
Proof.
  pose proof (continue_never_stops sample_digest sample_yaml sample_resolve
                "/out" continuing B_always_fails ABC empty_world
                B_exhausted_last eq_refl) as [H | H].
  - exfalso. revert H. vm_compute. discriminate.
  - split; [vm_compute; reflexivity | exact H].
Defined.

(** X7. A run changes no path other than the files derived from the URLs of
    its sitemap: whatever the schedule and the failures, every other path
    keeps the content it had before the run. *)
Theorem crawl_touches_only_target_files
    (md5 : string -> list byte) (yamlDump : Metadata.t -> string)
    (resolve : string -> string -> string) (outputPath : string)
    (options : CrawlOptions) (env : nat -> nat -> Attempt)
    (sites : list string) (w : World) (schedule : list nat) (p : string) :
  (forall u, In u sites -> p <> resolve outputPath (urlToFilename md5 u)) ->
  fs (world (crawl md5 yamlDump resolve outputPath options env sites w schedule))
    !! p = fs w !! p.
Proof.
  intros Hp.
  apply (crawl_invariant md5 yamlDump resolve outputPath options env sites w
           (fun l => List.map target (tasks l) = sites /\
                     fs (world l) !! p = fs w !! p)).
  - split; [rewrite submit_targets; reflexivity | now rewrite submit_fs].
  - intros l [Htg Hfs]. rewrite finish_tasks, finish_fs. now split.
  - intros i l t [Htg Hfs] Hexit Ht.
    assert (In (target t) sites) as Hin
      by (rewrite <- Htg; exact (lookup_target _ _ _ Ht)).
    destruct (step_effect md5 yamlDump resolve outputPath options env i l t
                Hexit Ht)
      as [[_ ->] | [(q & w' & _ & Hw & ->) | [(n & d & w' & _ & Hw & ->)
         | (n & w' & _ & _ & _ & Hw & ->)]]].
    + now split.
    + rewrite targets_set_phase. simpl. rewrite Hw. now split.
    + rewrite targets_set_phase. simpl. rewrite Hw. split; [exact Htg |].
      rewrite lookup_insert_ne; [exact Hfs |].
      intros E. exact (Hp _ Hin (eq_sym E)).
    + simpl. rewrite Hw. now split.
Qed.

Lemma crawl_touches_only_target_files_witness :
  fs (world (sample_crawl defaults B_always_fails ABC
               {| fs := {[ "/out/notes.txt" := "kept" ]}; console := [] |}
               B_exhausted_last)) !! "/out/notes.txt" = Some "kept".
Proof.
  rewrite (crawl_touches_only_target_files sample_digest sample_yaml
             sample_resolve "/out" defaults B_always_fails ABC _
             B_exhausted_last "/out/notes.txt").
  - vm_compute; reflexivity.
  - intros u [<- | [<- | [<- | []]]]; vm_compute; discriminate.
Defined.

Lemma outcome_matches_mono (path_of : string -> string)
    (f1 f2 : gmap string string) (t : Task) :
  (forall p, is_Some (f1 !! p) -> is_Some (f2 !! p)) ->
  outcome_matches path_of f1 t -> outcome_matches path_of f2 t.
Proof.
  unfold outcome_matches. intros Hmono.
  destruct (phase t) as [| s | [[u p | u e] | e]]; auto.
  intros (Hu & Hp & Hs). auto.
Qed.

Lemma outcome_matches_advance (path_of : string -> string)
    (files : gmap string string) options (t : Task) (p : Phase) :
  advance options t p ->
  outcome_matches path_of files {| target := target t; phase := p |}.
Proof.
  intros H. destruct H; exact I || reflexivity.
Qed.

(** The outcomes recorded in any state of a run match their targets. *)
Lemma crawl_outcomes_match
    (md5 : string -> list byte) (yamlDump : Metadata.t -> string)
    (resolve : string -> string -> string) (outputPath : string)
    (options : CrawlOptions) (env : nat -> nat -> Attempt)
    (sites : list string) (w : World) (schedule : list nat) (t : Task) :
  let l := crawl md5 yamlDump resolve outputPath options env sites w schedule in
  In t (tasks l) ->
  outcome_matches (fun u => resolve outputPath (urlToFilename md5 u))
    (fs (world l)) t.
Proof.
  intros l.
  set (path_of := fun u => resolve outputPath (urlToFilename md5 u)).
  assert (Forall (outcome_matches path_of (fs (world l))) (tasks l)) as Hall.
  { unfold l.
    apply (crawl_invariant md5 yamlDump resolve outputPath options env sites w
             (fun l => Forall (outcome_matches path_of (fs (world l)))
                         (tasks l))).
    - assert (phases (fun p => p = Queued \/ p = Running (Attempting 1))
                (submit options (Z.of_nat (List.length sites)) 0 sites
                   (initial w))) as Hph
        by (apply submit_phases; [now left | now right | constructor]).
      unfold phases in Hph. eapply Forall_impl; [exact Hph |].
      intros t0 Hp. unfold outcome_matches. simpl in Hp.
      destruct Hp as [-> | ->]; exact I.
    - intros l0 H. rewrite finish_tasks, finish_fs. exact H.
    - intros j l0 t0 H Hexit Hj.
      destruct (step_effect md5 yamlDump resolve outputPath options env j l0 t0
                  Hexit Hj)
        as [[_ ->] | [(q & w' & Hadv & Hw & ->) | [(n & d & w' & _ & Hw & ->)
           | (n & w' & _ & _ & _ & Hw & ->)]]].
      + exact H.
      + simpl. rewrite Hw. apply Forall_alter; [exact H |].
        intros x Hx _. assert (x = t0) as -> by congruence.
        eapply outcome_matches_advance. exact Hadv.
      + simpl. rewrite Hw. apply Forall_alter.
        * eapply Forall_impl; [exact H |]. intros x.
          apply outcome_matches_mono. intros p Hp.
          apply lookup_insert_is_Some. destruct (decide (path_of (target t0) = p));
            [now left | right; now split].
        * intros x Hx _. assert (x = t0) as -> by congruence.
          unfold outcome_matches. simpl.
          split; [reflexivity |]. split; [reflexivity |].
          rewrite lookup_insert_eq. eauto.
      + simpl. rewrite Hw. exact H. }
  rewrite List.Forall_forall in Hall. exact (Hall t).
Qed.

(** X8. In every state of every run the callback at index [i] is that of
    the [i]-th URL of the sitemap, and the outcome it has settled with, if
    any, is about that URL: a [Success] carries the path derived from the
    URL, at which a file exists; a [Failure] is recorded only with
    [--continue]. *)
Theorem outcomes_belong_to_targets
    (md5 : string -> list byte) (yamlDump : Metadata.t -> string)
    (resolve : string -> string -> string) (outputPath : string)
    (options : CrawlOptions) (env : nat -> nat -> Attempt)
    (sites : list string) (w : World) (schedule : list nat)
    (i : nat) (t : Task) :
  let l := crawl md5 yamlDump resolve outputPath options env sites w schedule in
  tasks l !! i = Some t ->
  sites !! i = Some (target t) /\
  (forall u p, phase t = Finished (fulfilled (Success u p)) ->
     u = target t /\
     p = resolve outputPath (urlToFilename md5 u) /\
     is_Some (fs (world l) !! p)) /\
  (forall u e, phase t = Finished (fulfilled (Failure u e)) ->
     u = target t /\ continue options = true).
Proof.
  intros l Ht.
  assert (In t (tasks l)) as Hin
    by (apply list_elem_of_In, list_elem_of_lookup; eauto).
  pose proof (crawl_outcomes_match md5 yamlDump resolve outputPath options env
                sites w schedule t Hin) as Hm.
  fold l in Hm.
  split; [exact (crawl_target_at _ _ _ _ _ _ _ _ _ _ _ Ht) |].
  unfold outcome_matches in Hm. split.
  - intros u p Hp. rewrite Hp in Hm. exact Hm.
  - intros u e Hp. rewrite Hp in Hm. split; [exact Hm |].
    destruct (continue options) eqn:Hc; [reflexivity |].
    destruct (crawl_halt_invariant md5 yamlDump resolve outputPath options env
                sites w schedule Hc) as (Hnf & _).
    unfold phases in Hnf. rewrite List.Forall_forall in Hnf.
    exfalso. exact (Hnf t Hin u e Hp).
Qed.

Lemma outcomes_belong_to_targets_witness :
  is_Some (fs (world (sample_crawl continuing B_always_fails ABC empty_world
                        B_exhausted_last)) !! "/out/43.md").
Proof.
  destruct (outcomes_belong_to_targets sample_digest sample_yaml sample_resolve
              "/out" continuing B_always_fails ABC empty_world B_exhausted_last
              2%nat
              {| target := "C";
                 phase := Finished (fulfilled (Success "C" "/out/43.md")) |})
    as (_ & Hs & _).
  - vm_compute; reflexivity.
  - destruct (Hs "C" "/out/43.md" eq_refl) as (_ & _ & H). exact H.
Defined.




(** ** Batch coordinator: every run can complete *)

Lemma finish_closed (n : Z) (l : Loop) : closed (finish n l).
Proof.
  unfold closed, finish.
  destruct (exitCode l) eqn:He; [now rewrite He |].
  destruct (results l) eqn:Hr; [discriminate | now rewrite Hr].
Qed.

Lemma advance_steps_left options (t : Task) (p : Phase) :
  advance options t p ->
  (steps_left (Z.to_nat (retries options)) p <
   steps_left (Z.to_nat (retries options)) (phase t))%nat /\
  live_phase options p.
Proof.
  intros H. destruct H as [Hp | d n Hp | n Hp Hn | n e Hp Hn Hc];
    rewrite Hp; simpl; (split; [lia | right; simpl; auto]).
Qed.

Lemma all_finished_results (l : Loop) :
  (forall j, (j < List.length (tasks l))%nat ->
     exists t, tasks l !! j = Some t /\ finished t = true) ->
  is_Some (results l).
Proof.
  intros H. unfold results. apply mapM_is_Some_2.
  apply Forall_lookup_2. intros j t Hj.
  destruct (H j) as (t' & Ht' & Hf); [now apply lookup_lt_Some in Hj |].
  assert (t' = t) as -> by congruence.
  unfold finished in Hf. simpl. unfold settledOf.
  destruct (phase t); try discriminate. eauto.
Qed.

Lemma finished_prefix_started (l : Loop) (m : nat) :
  (forall j, (j < m)%nat ->
     exists t, tasks l !! j = Some t /\ finished t = true) ->
  forallb started (take m (tasks l)) = true.
Proof.
  intros H. apply forallb_forall. intros t Hin.
  apply list_elem_of_In, list_elem_of_lookup in Hin as [j Hj].
  pose proof (lookup_lt_Some _ _ _ Hj) as Hlt.
  rewrite length_take in Hlt.
  rewrite lookup_take_lt in Hj by lia.
  destruct (H j) as (t' & Ht' & Hf); [lia |].
  assert (t' = t) as -> by congruence.
  unfold finished in Hf. unfold started. destruct (phase t); try discriminate.
  reflexivity.
Qed.

Section Completion.
Variable md5 : string -> list byte.
Variable yamlDump : Metadata.t -> string.
Variable resolve : string -> string -> string.
Variable outputPath : string.
Variable options : CrawlOptions.
Variable env : nat -> nat -> Attempt.

Local Abbreviation step' :=
  (step md5 yamlDump resolve outputPath options env).
Local Abbreviation events' :=
  (events md5 yamlDump resolve outputPath options env).
Local Abbreviation crawl' :=
  (crawl md5 yamlDump resolve outputPath options env).
Local Abbreviation R := (Z.to_nat (retries options)).

Lemma events_cons n i schedule l :
  events' n (i :: schedule) l = events' n schedule (finish n (step' i l)).
Proof. reflexivity. Qed.

(** Enough events of one target settle it, or end the process, and leave
    the other callbacks as they were. *)
Lemma drain_target n i : forall k l t,
  tasks l !! i = Some t ->
  live_phase options (phase t) ->
  forallb started (take i (tasks l)) = true ->
  (steps_left R (phase t) <= k)%nat ->
  is_Some (exitCode (events' n (repeat i k) l)) \/
  (exists t',
     tasks (events' n (repeat i k) l) !! i = Some t' /\ finished t' = true) /\
  (forall j, j <> i -> tasks (events' n (repeat i k) l) !! j = tasks l !! j).
Proof.
  assert (forall k l c, exitCode l = Some c ->
            is_Some (exitCode (events' n (repeat i k) l))) as Hdead.
  { intros k l c Hc.
    rewrite (events_exited md5 yamlDump resolve outputPath options env n _ l c Hc).
    rewrite Hc. eauto. }
  induction k as [|k IH]; intros l t Ht Hlive Hfifo Hk.
  - right. simpl. split; [| reflexivity].
    exists t. split; [exact Ht |]. unfold finished.
    destruct Hlive as [Hq | Hr].
    + rewrite Hq in Hk. simpl in Hk. lia.
    + destruct (phase t) as [| [m | d m | v | e] | r]; simpl in *;
        try lia; try contradiction; reflexivity.
  - cbn [repeat]. rewrite events_cons.
    destruct (exitCode l) as [c |] eqn:Hexit.
    { left. rewrite (step_exited _ _ _ _ _ _ _ _ c Hexit).
      rewrite (finish_exited _ _ c Hexit). now apply (Hdead k l c). }
    destruct (step_effect md5 yamlDump resolve outputPath options env i l t
                Hexit Ht)
      as [[Hb ->] | [(p & w' & Hadv & _ & ->) | [(m & d & w' & _ & _ & ->)
         | (m & w' & _ & _ & _ & _ & ->)]]].
    + (* settled already *)
      destruct (finish_cases n l) as [-> | (rs & _ & _ & ->)];
        [| left; now apply (Hdead k _ 0)].
      apply (IH l t Ht Hlive Hfifo).
      unfold blocked in Hb.
      destruct Hlive as [Hq | Hr].
      * rewrite Hq in Hb. congruence.
      * destruct (phase t) as [| [m | d m | v | e] | r]; simpl in *;
          try lia; try contradiction.
    + destruct (advance_steps_left options t p Hadv) as [Hlt Hlive'].
      set (l1 := set_phase i p (set_world w' l)).
      assert (tasks l1 !! i = Some {| target := target t; phase := p |}) as Ht1
        by (apply lookup_set_phase; exact Ht).
      assert (forall j, j <> i -> tasks l1 !! j = tasks l !! j) as Hothers
        by (intros j Hj; unfold l1, set_phase; simpl;
            now apply list_lookup_alter_ne).
      assert (forallb started (take i (tasks l1)) = true) as Hfifo1
        by (unfold l1, set_phase; simpl; now rewrite take_alter_ge).
      destruct (finish_cases n l1) as [-> | (rs & _ & _ & ->)];
        [| left; now apply (Hdead k _ 0)].
      destruct (IH l1 _ Ht1 Hlive' Hfifo1) as [Hdone | [Hfin Hsame]];
        [simpl; lia | now left |].
      right. split; [exact Hfin |].
      intros j Hj. rewrite Hsame by exact Hj. now apply Hothers.
    + set (l1 := set_phase i _ (set_world w' l)).
      assert (tasks l1 !! i =
                Some {| target := target t;
                        phase := Finished (fulfilled
                                   (Success (target t)
                                      (resolve outputPath
                                         (urlToFilename md5 (target t))))) |})
        as Ht1 by (apply lookup_set_phase; exact Ht).
      assert (forall j, j <> i -> tasks l1 !! j = tasks l !! j) as Hothers
        by (intros j Hj; unfold l1, set_phase; simpl;
            now apply list_lookup_alter_ne).
      assert (forallb started (take i (tasks l1)) = true) as Hfifo1
        by (unfold l1, set_phase; simpl; now rewrite take_alter_ge).
      destruct (finish_cases n l1) as [-> | (rs & _ & _ & ->)];
        [| left; now apply (Hdead k _ 0)].
      destruct (IH l1 _ Ht1) as [Hdone | [Hfin Hsame]];
        [right; exact I | exact Hfifo1 | simpl; lia | now left |].
      right. split; [exact Hfin |].
      intros j Hj. rewrite Hsame by exact Hj. now apply Hothers.
    + left. rewrite (finish_exited _ _ 1) by reflexivity.
      now apply (Hdead k _ 1).
Qed.
End Completion.

Lemma sequential_S (m k : nat) :
  sequential (S m) k = (sequential m k ++ repeat m k)%list.
Proof.
  unfold sequential. rewrite seq_S, flat_map_app. simpl.
  now rewrite app_nil_r.
Qed.

Lemma live_steps_left options (p : Phase) :
  live_phase options p ->
  (steps_left (Z.to_nat (retries options)) p <= patience options)%nat.
Proof.
  unfold patience. intros [-> | H]; [simpl; lia |].
  destruct p as [| [m | d m | v | e] | r]; simpl in *; lia || contradiction.
Qed.

Section Sequential.
Variable md5 : string -> list byte.
Variable yamlDump : Metadata.t -> string.
Variable resolve : string -> string -> string.
Variable outputPath : string.
Variable options : CrawlOptions.
Variable env : nat -> nat -> Attempt.
Variable sites : list string.
Variable w0 : World.

Local Abbreviation crawl' :=
  (crawl md5 yamlDump resolve outputPath options env).
Local Abbreviation N := (Z.of_nat (List.length sites)).

Lemma crawl_closed schedule : closed (crawl' sites w0 schedule).
Proof.
  unfold crawl. apply events_invariant; [| apply finish_closed].
  intros i l _. apply finish_closed.
Qed.

Lemma crawl_live_phases schedule :
  phases (live_phase options) (crawl' sites w0 schedule).
Proof.
  apply (crawl_invariant md5 yamlDump resolve outputPath options env sites w0
           (phases (live_phase options))).
  - apply submit_phases; [now left | right; exact I | constructor].
  - intros l H. unfold phases. rewrite finish_tasks. exact H.
  - intros i l t H Hexit Ht.
    destruct (step_effect md5 yamlDump resolve outputPath options env i l t
                Hexit Ht)
      as [[_ ->] | [(p & w' & Hadv & _ & ->) | [(m & d & w' & _ & _ & ->)
         | (m & w' & _ & _ & _ & _ & ->)]]].
    + exact H.
    + apply phases_alter; [| exact H].
      now destruct (advance_steps_left options t p Hadv).
    + apply phases_alter; [right; exact I | exact H].
    + exact H.
Qed.

(** The exit status of a run: 0 after the summary, or 1, and 1 only
    without [--continue]. *)
Lemma crawl_exit_status schedule :
  let l := crawl' sites w0 schedule in
  exitCode l = None \/ exitCode l = Some 0 \/
  (exitCode l = Some 1 /\ continue options = false).
Proof.
  apply (crawl_invariant md5 yamlDump resolve outputPath options env sites w0
           (fun l => exitCode l = None \/ exitCode l = Some 0 \/
                     (exitCode l = Some 1 /\ continue options = false))).
  - left. apply submit_exitCode.
  - intros l H.
    destruct (finish_cases N l) as [-> | (rs & _ & _ & ->)];
      [exact H | right; now left].
  - intros i l t _ Hexit Ht.
    destruct (step_effect md5 yamlDump resolve outputPath options env i l t
                Hexit Ht)
      as [[_ ->] | [(p & w' & _ & _ & ->) | [(m & d & w' & _ & _ & ->)
         | (m & w' & _ & _ & Hno & _ & ->)]]];
      try (left; exact Hexit).
    right; right. now split.
Qed.

(** After the events of the first [m] targets the process has exited or
    these targets have settled. *)
Lemma sequential_settles m :
  (m <= List.length sites)%nat ->
  let l := crawl' sites w0 (sequential m (patience options)) in
  is_Some (exitCode l) \/
  (forall j, (j < m)%nat ->
     exists t, tasks l !! j = Some t /\ finished t = true).
Proof.
  induction m as [|m IH]; intros Hm; [right; intros j Hj; lia |].
  cbv zeta. rewrite sequential_S, crawl_app.
  set (l := crawl' sites w0 (sequential m (patience options))) in *.
  destruct IH as [[c Hc] | Hdone]; [lia | |].
  { left.
    rewrite (events_exited md5 yamlDump resolve outputPath options env _ _ l c Hc).
    eauto. }
  destruct (exitCode l) as [c |] eqn:Hexit.
  { left.
    rewrite (events_exited md5 yamlDump resolve outputPath options env _ _ l c
               Hexit).
    rewrite Hexit. eauto. }
  assert (List.length (tasks l) = List.length sites) as Hlen.
  { rewrite <- (crawl_targets md5 yamlDump resolve outputPath options env sites
                  w0 (sequential m (patience options))).
    fold l. now rewrite List.length_map. }
  destruct (lookup_lt_is_Some_2 (tasks l) m) as [t Ht]; [lia |].
  assert (live_phase options (phase t)) as Hlive.
  { pose proof (crawl_live_phases (sequential m (patience options))) as H.
    fold l in H. unfold phases in H. rewrite List.Forall_forall in H.
    apply H. apply list_elem_of_In, list_elem_of_lookup. eauto. }
  destruct (drain_target md5 yamlDump resolve outputPath options env N m
              (patience options) l t Ht Hlive
              (finished_prefix_started l m Hdone)
              (live_steps_left options _ Hlive))
    as [Hdead | [Hfin Hsame]]; [now left |].
  right. intros j Hj.
  destruct (decide (j = m)) as [-> | Hne]; [exact Hfin |].
  rewrite Hsame by exact Hne. apply Hdone. lia.
Qed.
End Sequential.

(** X10. Every run can complete: with the events of the schedule that lets
    the targets settle one after the other, the process ends with status 0
    or 1; and with [--continue] it ends with status 0 whatever fails, with
    one settled result per URL of the sitemap. *)
Theorem crawl_completes
    (md5 : string -> list byte) (yamlDump : Metadata.t -> string)
    (resolve : string -> string -> string) (outputPath : string)
    (options : CrawlOptions) (env : nat -> nat -> Attempt)
    (sites : list string) (w : World) :
  let l :=
    crawl md5 yamlDump resolve outputPath options env sites w
      (sequential (List.length sites) (patience options)) in
  (exitCode l = Some 0 \/ exitCode l = Some 1) /\
  (continue options = true -> exitCode l = Some 0) /\
  (exitCode l = Some 0 ->
   exists rs, results l = Some rs /\ List.length rs = List.length sites).
Proof.
  intros l.
  assert (is_Some (exitCode l)) as [c Hc].
  { destruct (sequential_settles md5 yamlDump resolve outputPath options env
                sites w (List.length sites) (le_n _)) as [H | H]; [exact H |].
    fold l in H.
    destruct (exitCode l) as [c |] eqn:Hexit; [eauto |].
    assert (List.length (tasks l) = List.length sites) as Hlen.
    { rewrite <- (crawl_targets md5 yamlDump resolve outputPath options env
                    sites w (sequential (List.length sites) (patience options))).
      fold l. now rewrite List.length_map. }
    destruct (all_finished_results l) as [rs Hrs].
    - intros j Hj. apply H. lia.
    - pose proof (crawl_closed md5 yamlDump resolve outputPath options env
                    sites w (sequential (List.length sites) (patience options)))
        as Hcl.
      fold l in Hcl. rewrite (Hcl Hexit) in Hrs. discriminate. }
  pose proof (crawl_exit_status md5 yamlDump resolve outputPath options env
                sites w (sequential (List.length sites) (patience options)))
    as Hst.
  cbv zeta in Hst. fold l in Hst.
  split; [| split].
  - destruct Hst as [H | [H | [H _]]]; [congruence | now left | now right].
  - intros Hcont. destruct Hst as [H | [H | [_ H]]]; congruence.
  - intros H0.
    destruct (summary_counts_settled_promises md5 yamlDump resolve outputPath
                options env sites w
                (sequential (List.length sites) (patience options)))
      as (_ & Hsum).
    destruct (Hsum H0) as (rs & Hrs & Hlen & _). eauto.
Qed.

(** ** The fan-out and the rate limit *)

Section FanOutStarts.
Variable options : CrawlOptions.

Local Abbreviation rate := (rateLimitPerSecond options).

Lemma throttledFn_task i u l :
  tasks (throttledFn options i u l) =
    (tasks l ++
     [{| target := u;
         phase := if ((rate <=? 0) || (Z.of_nat i <? rate))%bool
                  then Running (Attempting 1) else Queued |}])%list.
Proof.
  unfold throttledFn, pThrottle, start_operation.
  destruct (Z.ltb_spec 0 rate) as [Hpos | Hneg];
    destruct (Z.leb_spec rate 0); try lia; simpl;
    [destruct (Z.of_nat i <? rate) |]; reflexivity.
Qed.

Lemma submit_prefix n sites : forall i0 l j,
  (j < List.length (tasks l))%nat ->
  tasks (submit options n i0 sites l) !! j = tasks l !! j.
Proof.
  induction sites as [|u sites IH]; intros i0 l j Hj; [reflexivity |].
  simpl. rewrite IH.
  - rewrite throttledFn_task. simpl. now apply lookup_app_l.
  - rewrite throttledFn_task, List.length_app. simpl. lia.
Qed.

Lemma submit_task n sites : forall i0 l k u,
  sites !! k = Some u ->
  tasks (submit options n i0 sites l) !! (List.length (tasks l) + k)%nat =
    Some {| target := u;
            phase := if ((rate <=? 0) || (Z.of_nat (i0 + k) <? rate))%bool
                     then Running (Attempting 1) else Queued |}.
Proof.
  induction sites as [|u0 sites IH]; intros i0 l k u Hk; [discriminate |].
  simpl.
  set (l1 := throttledFn options i0 u0 _).
  assert (tasks l1 =
            (tasks l ++
             [{| target := u0;
                 phase := if ((rate <=? 0) || (Z.of_nat i0 <? rate))%bool
                          then Running (Attempting 1) else Queued |}])%list)
    as Hl1 by (unfold l1; rewrite throttledFn_task; reflexivity).
  destruct k as [|k].
  - injection Hk as <-.
    rewrite submit_prefix by (rewrite Hl1, List.length_app; simpl; lia).
    rewrite Hl1, !Nat.add_0_r.
    rewrite lookup_app_r by lia. rewrite Nat.sub_diag. reflexivity.
  - simpl in Hk.
    replace (List.length (tasks l) + S k)%nat
      with (List.length (tasks l1) + k)%nat
      by (rewrite Hl1, List.length_app; simpl; lia).
    rewrite (IH (S i0) l1 k u Hk).
    replace (S i0 + k)%nat with (i0 + S k)%nat by lia. reflexivity.
Qed.
End FanOutStarts.

(** X11. The fan-out: before any event, the callback of the [i]-th URL
    exists, is not settled, and its operation has been started exactly when
    the rate limit is at most 0 or [i] (counted from 0) is below the rate
    limit; the fan-out writes no file. *)
Theorem fan_out_starts
    (md5 : string -> list byte) (yamlDump : Metadata.t -> string)
    (resolve : string -> string -> string) (outputPath : string)
    (options : CrawlOptions) (env : nat -> nat -> Attempt)
    (sites : list string) (w : World) (i : nat) (u : string) :
  sites !! i = Some u ->
  let l := crawl md5 yamlDump resolve outputPath options env sites w [] in
  exists t,
    tasks l !! i = Some t /\
    target t = u /\
    (started t = true <->
     rateLimitPerSecond options <= 0 \/
     Z.of_nat i < rateLimitPerSecond options) /\
    finished t = false /\
    exitCode l = None /\
    fs (world l) = fs w.
Proof.
  intros Hu l. unfold l, crawl, events. simpl.
  rewrite finish_tasks, finish_fs, submit_fs.
  pose proof (submit_task options (Z.of_nat (List.length sites)) sites 0
                (initial w) i u Hu) as Ht.
  simpl in Ht. eexists. split; [exact Ht |]. simpl.
  split; [reflexivity |]. split; [| split; [| split; [| reflexivity]]].
  - unfold started. simpl.
    destruct (Z.leb_spec (rateLimitPerSecond options) 0);
      destruct (Z.ltb_spec (Z.of_nat i) (rateLimitPerSecond options));
      simpl; split; intros H'; try reflexivity; try discriminate; lia.
  - unfold finished. simpl.
    destruct ((rateLimitPerSecond options <=? 0)
              || (Z.of_nat i <? rateLimitPerSecond options))%bool;
      reflexivity.
  - unfold finish. rewrite submit_exitCode. simpl.
    unfold results.
    destruct (mapM settledOf _) as [rs |] eqn:Hrs;
      [| rewrite submit_exitCode; reflexivity].
    exfalso. apply mapM_Some_1 in Hrs.
    destruct (Forall2_lookup_l _ _ _ _ _ Hrs Ht) as (r & _ & Hr).
    unfold settledOf in Hr. simpl in Hr.
    destruct ((rateLimitPerSecond options <=? 0)
              || (Z.of_nat i <? rateLimitPerSecond options))%bool;
      discriminate.
Qed.

Lemma fan_out_starts_witness :
  tasks (sample_crawl defaults B_always_fails ABC empty_world []) !! 1%nat =
    Some {| target := "B"; phase := Queued |}.
Proof.
  destruct (fan_out_starts sample_digest sample_yaml sample_resolve "/out"
              defaults B_always_fails ABC empty_world 1%nat "B" eq_refl)
    as (t & Ht & Hu & Hs & _).
  rewrite Ht. f_equal. destruct t as [u p]. simpl in *. subst u. f_equal.
  unfold started in Hs. simpl in Hs.
  destruct p; try reflexivity;
    (assert (true = true) as E by reflexivity; apply Hs in E; lia).
Defined.

(** ** The crawl action *)

Lemma last_snoc {A} (l : list A) (x d : A) : List.last (l ++ [x]) d = x.
Proof. apply List.last_last. Qed.

(** X12. The action ends before the fan-out exactly when [mkdir] or
    [sitemap.fetch] is refused: it then exits with status 1 whatever the
    schedule, with no callback created, no file written and no line of the
    fan-out printed, and its last line is [Error fetching sitemap:] with
    the message of the error, also when the error is that of [mkdir]. The
    output directory has been made by then exactly when the refusal is
    that of [sitemap.fetch], which is asked only after [mkdir]; when
    [mkdir] is refused the sitemap plays no part. Whenever [mkdir] is not
    refused the directory made is [resolve cwd outputDir]. *)
Theorem action_startup_failure
    (md5 : string -> list byte) (yamlDump : Metadata.t -> string)
    (resolve : string -> string -> string) (cwd url outputDir : string)
    (options : CrawlOptions) (s : Startup) (env : nat -> nat -> Attempt)
    (w : World) :
  let run := action md5 yamlDump resolve cwd url outputDir options s env w in
  (exitCode (loop (run [])) = Some 1 <-> is_Some (startup_error s)) /\
  (forall error schedule,
     startup_error s = Some error ->
     loop (run schedule) =
       {| tasks := []; world := w; exitCode := Some 1 |} /\
     List.last (banner (run schedule)) DebugModeEnabled =
       ErrorFetchingSitemap (message error) /\
     (directory (run schedule) = Some (resolve cwd outputDir) <->
      fetched s = inl error /\ mkdirRejects s = None) /\
     (directory (run schedule) = None <-> mkdirRejects s = Some error)) /\
  (forall schedule,
     directory (run schedule) =
       match mkdirRejects s with
       | Some _ => None
       | None => Some (resolve cwd outputDir)
       end) /\
  (forall error sitemap schedule,
     mkdirRejects s = Some error ->
     run schedule =
       action md5 yamlDump resolve cwd url outputDir options
         {| mkdirRejects := Some error; fetched := sitemap |} env w schedule).
Proof.
  intros run. unfold run, action, startup_error.
  destruct (mkdirRejects s) as [e |] eqn:Hm.
  - split; [| split; [| split]].
    + simpl. split; eauto.
    + intros error schedule [= <-]. simpl. split; [reflexivity |].
      split; [apply last_snoc |].
      split; [split; [discriminate | intros [_ H]; discriminate H] |].
      split; reflexivity.
    + reflexivity.
    + intros error sitemap schedule [= <-]. reflexivity.
  - destruct (fetched s) as [e | sites] eqn:Hf.
    + split; [| split; [| split]].
      * simpl. split; eauto.
      * intros error schedule [= <-]. simpl. split; [reflexivity |].
        split; [apply last_snoc |].
        split; [split; [intros _; split; reflexivity | reflexivity] |].
        split; discriminate.
      * reflexivity.
      * intros error sitemap schedule H. discriminate H.
    + split; [| split; [| split]].
      * simpl. split; [| intros [x Hx]; discriminate Hx].
        intros H. exfalso. revert H. unfold crawl, events. simpl.
        set (l0 := submit _ _ _ _ _).
        destruct (finish_cases (Z.of_nat (List.length sites)) l0)
          as [-> | (rs & _ & _ & ->)]; [| discriminate].
        unfold l0. rewrite submit_exitCode. discriminate.
      * intros error schedule H. discriminate H.
      * reflexivity.
      * intros error sitemap schedule H. discriminate H.
Qed.

Lemma crawl_with_debug
    (md5 : string -> list byte) (yamlDump : Metadata.t -> string)
    (resolve : string -> string -> string) (outputPath : string)
    (options : CrawlOptions) (env : nat -> nat -> Attempt) (b : bool)
    (sites : list string) (w : World) (schedule : list nat) :
  crawl md5 yamlDump resolve outputPath (with_debug b options) env sites w
    schedule =
  crawl md5 yamlDump resolve outputPath options env sites w schedule.
Proof.
  unfold crawl.
  assert (forall n i l,
            submit (with_debug b options) n i sites l =
            submit options n i sites l) as ->.
  { intros n. induction sites as [|u rest IH]; intros i l; [reflexivity |].
    simpl. rewrite IH. reflexivity. }
  generalize (finish (Z.of_nat (List.length sites))
                (submit options (Z.of_nat (List.length sites)) 0 sites
                   (initial w))).
  unfold events.
  induction schedule as [|i schedule IH]; intros l; [reflexivity |].
  simpl. rewrite IH. reflexivity.
Qed.

(** X13. [--debug] changes nothing but the output: with it the same run
    prints two more lines, [Debug mode enabled] and the sitemap URL, before
    everything else; the process (callbacks, files, fan-out lines, exit
    status) is the same. *)
Theorem debug_only_adds_lines
    (md5 : string -> list byte) (yamlDump : Metadata.t -> string)
    (resolve : string -> string -> string) (cwd url outputDir : string)
    (options : CrawlOptions) (s : Startup) (env : nat -> nat -> Attempt)
    (w : World) (schedule : list nat) :
  let quiet :=
    action md5 yamlDump resolve cwd url outputDir (with_debug false options)
      s env w schedule in
  let loud :=
    action md5 yamlDump resolve cwd url outputDir (with_debug true options)
      s env w schedule in
  loop loud = loop quiet /\
  banner loud =
    ([DebugModeEnabled; FetchingSitemapFrom url] ++ banner quiet)%list.
Proof.
  intros quiet loud. unfold quiet, loud, action. simpl.
  destruct (mkdirRejects s); [split; reflexivity |].
  destruct (fetched s) as [e | sites]; [split; reflexivity |].
  simpl. split; [| reflexivity].
  now rewrite !crawl_with_debug.
Qed.

(** X14. A negative rate limit: the operations of all targets are started
    during the fan-out, none is ever held back, as with a rate limit of 0;
    yet the line about the rate limit does not say that it is disabled. *)
Theorem negative_rate_limit
    (md5 : string -> list byte) (yamlDump : Metadata.t -> string)
    (resolve : string -> string -> string) (cwd url outputDir : string)
    (options : CrawlOptions) (s : Startup) (env : nat -> nat -> Attempt)
    (w : World) (schedule : list nat) :
  startup_error s = None ->
  rateLimitPerSecond options < 0 ->
  let p :=
    action md5 yamlDump resolve cwd url outputDir options s env w schedule in
  phases not_queued (loop p) /\
  List.last (banner p) DebugModeEnabled =
    RateLimitSetTo (rateLimitPerSecond options) false.
Proof.
  intros Hs Hrate p. unfold p, action. unfold startup_error in Hs.
  destruct (mkdirRejects s); [discriminate |].
  destruct (fetched s) as [e | sites]; [discriminate |].
  simpl. split.
  - apply unthrottled_all_started. lia.
  - destruct (Z.eqb_spec (rateLimitPerSecond options) 0); [lia |].
    destruct (debug options); reflexivity.
Qed.

Lemma negative_rate_limit_witness :
  phases not_queued
    (loop (action sample_digest sample_yaml sample_resolve "/home" "s.xml"
             "out" negative_rate sitemap_ABC B_always_fails empty_world [])) /\
  List.last
    (banner (action sample_digest sample_yaml sample_resolve "/home" "s.xml"
               "out" negative_rate sitemap_ABC B_always_fails empty_world []))
    DebugModeEnabled = RateLimitSetTo (-1) false.
Proof.
  apply (negative_rate_limit sample_digest sample_yaml sample_resolve "/home"
           "s.xml" "out" negative_rate sitemap_ABC B_always_fails empty_world []).
  - reflexivity.
  - simpl. lia.
Defined.

(** ** The earlier revision: file names from paths *)

Lemma endsWith_refl (s : string) : Legacy.endsWith s s = true.
Proof.
  destruct s; cbn [Legacy.endsWith]; rewrite String.eqb_refl; reflexivity.
Qed.

Lemma endsWith_spec (suffix s : string) :
  Legacy.endsWith suffix s = true <-> ends_with suffix s.
Proof.
  unfold ends_with. split.
  - induction s as [|c s IH]; cbn [Legacy.endsWith].
    + destruct (String.eqb_spec "" suffix) as [<- | _]; [| discriminate].
      intros _. exists "". reflexivity.
    + destruct (String.eqb_spec (String c s) suffix) as [<- | _].
      * intros _. exists "". reflexivity.
      * intros H. destruct (IH H) as [stem ->].
        exists (String c stem). reflexivity.
  - intros [stem ->]. induction stem as [|c stem IH].
    + apply endsWith_refl.
    + change (String c stem ++ suffix) with (String c (stem ++ suffix)).
      cbn [Legacy.endsWith].
      destruct (String.eqb_spec (String c (stem ++ suffix)) suffix);
        [reflexivity | exact IH].
Qed.

Lemma dash_slashes_no_slash (s : string) : no_slash (Legacy.dash_slashes s).
Proof.
  unfold no_slash. induction s as [|c s IH]; simpl; constructor; [| exact IH].
  destruct (Ascii.eqb_spec c "/"); [discriminate | assumption].
Qed.

Lemma no_slash_app (a b : string) :
  no_slash a -> no_slash b -> no_slash (a ++ b).
Proof.
  unfold no_slash. rewrite chars_app. intros Ha Hb.
  apply Forall_app. now split.
Qed.

Lemma no_slash_dash (s : string) : no_slash s -> Legacy.dash_slashes s = s.
Proof.
  unfold no_slash. induction s as [|c s IH]; simpl; intros H; [reflexivity |].
  apply Forall_cons in H as [Hc Hs].
  destruct (Ascii.eqb_spec c "/"); [contradiction |]. now rewrite IH.
Qed.

Lemma no_slash_strip (s : string) :
  no_slash s -> Legacy.strip_leading_slash s = s.
Proof.
  unfold no_slash. destruct s as [|c s]; simpl; intros H; [reflexivity |].
  apply Forall_cons in H as [Hc _].
  destruct (Ascii.eqb_spec c "/"); [contradiction | reflexivity].
Qed.

Lemma dash_slashes_app (a b : string) :
  Legacy.dash_slashes (a ++ b) =
    Legacy.dash_slashes a ++ Legacy.dash_slashes b.
Proof.
  induction a as [|c a IH]; simpl; [reflexivity | now rewrite IH].
Qed.

Lemma append_inv_head (a b c : string) : a ++ b = a ++ c -> b = c.
Proof.
  induction a as [|x a IH]; simpl; intros H; [exact H |].
  injection H as H. now apply IH.
Qed.

(** X15. The file name the earlier revision derives from a path is never
    empty, contains no slash, ends with [.md], and is a fixed point: derived
    again from its own name it does not change (no second extension). *)
Theorem legacy_filename_shape (pathname : string) :
  let filename := Legacy.filenameOfPath pathname in
  filename <> "" /\
  no_slash filename /\
  ends_with ".md" filename /\
  Legacy.filenameOfPath filename = filename.
Proof.
  intros filename.
  assert (no_slash filename /\ Legacy.endsWith ".md" filename = true)
    as [Hns Hmd].
  { unfold filename, Legacy.filenameOfPath.
    set (f0 := Legacy.dash_slashes (Legacy.strip_leading_slash pathname)).
    assert (no_slash (if String.eqb f0 "" then "index" else f0)) as Hf.
    { destruct (String.eqb f0 "").
      - unfold no_slash. simpl. repeat (constructor; [discriminate |]).
        constructor.
      - apply dash_slashes_no_slash. }
    destruct (Legacy.endsWith ".md" (if String.eqb f0 "" then "index" else f0))
      eqn:He.
    - now split.
    - split.
      + apply no_slash_app; [exact Hf |].
        unfold no_slash. simpl. repeat (constructor; [discriminate |]).
        constructor.
      + apply endsWith_spec. eexists. reflexivity. }
  assert (filename <> "") as Hne.
  { apply endsWith_spec in Hmd as [stem E]. rewrite E.
    destruct stem; discriminate. }
  split; [exact Hne |]. split; [exact Hns |].
  split; [now apply endsWith_spec |].
  unfold Legacy.filenameOfPath.
  rewrite (no_slash_strip _ Hns), (no_slash_dash _ Hns).
  destruct (String.eqb_spec filename ""); [contradiction |].
  now rewrite Hmd.
Qed.

(** X16. The earlier revision gives distinct paths the same file name: a
    slash inside the path and a dash in its place are not told apart, for
    any two segments [a] and [b], and the name depends on the path only
    through its form with the leading slash dropped and the slashes
    replaced. *)
Theorem legacy_filename_collisions (a b p q : string) :
  (Legacy.dash_slashes (Legacy.strip_leading_slash p) =
   Legacy.dash_slashes (Legacy.strip_leading_slash q) ->
   Legacy.filenameOfPath p = Legacy.filenameOfPath q) /\
  "/" ++ a ++ "/" ++ b <> "/" ++ a ++ "-" ++ b /\
  Legacy.filenameOfPath ("/" ++ a ++ "/" ++ b) =
    Legacy.filenameOfPath ("/" ++ a ++ "-" ++ b).
Proof.
  split; [| split].
  - intros H. unfold Legacy.filenameOfPath. now rewrite H.
  - intros H. apply (append_inv_head "/") in H.
    apply append_inv_head in H. discriminate H.
  - unfold Legacy.filenameOfPath.
    change (Legacy.strip_leading_slash ("/" ++ a ++ "/" ++ b))
      with (a ++ "/" ++ b).
    change (Legacy.strip_leading_slash ("/" ++ a ++ "-" ++ b))
      with (a ++ "-" ++ b).
    rewrite !dash_slashes_app. reflexivity.
Qed.

(** ** The earlier revision: the operation is never called *)

Lemma legacy_fanOut options operation n sites : forall i w,
  let '(results, w') := Legacy.fanOut options operation n i sites w in
  fs w' = fs w /\
  List.length results = List.length sites /\
  List.filter Legacy.is_fulfilled results = results /\
  List.filter Legacy.is_rejected results = [] /\
  Forall (fun line => In line (console w) \/
                      exists k u, line = Processing k n u) (console w').
Proof.
  induction sites as [|u sites IH]; intros i w; simpl.
  - repeat split; try reflexivity.
    apply List.Forall_forall. intros line H. now left.
  - specialize (IH (S i) (log (Processing (Z.of_nat i + 1) n u) w)).
    destruct (Legacy.fanOut options operation n (S i) sites
                (log (Processing (Z.of_nat i + 1) n u) w)) as [rs w'].
    destruct IH as (Hfs & Hlen & Hful & Hrej & Hlines).
    simpl. rewrite Hlen, Hful, Hrej.
    repeat split; try reflexivity; try exact Hfs.
    eapply Forall_impl; [exact Hlines |].
    intros line [H | H]; [| now right].
    simpl in H. apply in_app_or in H as [H | [<- | []]]; [now left |].
    right. eauto.
Qed.

(** X17. The earlier revision never calls the per-URL operation: its
    callback awaits the function that [throttle] returns, not a call of it.
    Whatever the options, the sitemap and the operation, no file is written,
    the only lines added are the [Processing] lines and the summary, every
    promise is fulfilled, the summary counts every URL as successful and
    none as failed, and the exit status is 0. *)
Theorem legacy_never_calls_the_operation
    (options : CrawlOptions) (operation : string -> Legacy.Operation)
    (sites : list string) (w : World) :
  let n := Z.of_nat (List.length sites) in
  let '(results, w', code) := Legacy.crawl options operation sites w in
  fs w' = fs w /\
  code = 0 /\
  List.length results = List.length sites /\
  Forall (fun r => Legacy.is_fulfilled r = true) results /\
  List.last (console w') StoppingDueToError = Completed n n 0 /\
  Forall (fun line => In line (console w) \/
                      (exists k u, line = Processing k n u) \/
                      line = Completed n n 0) (console w').
Proof.
  intros n. unfold Legacy.crawl. fold n.
  pose proof (legacy_fanOut options operation n sites 0 w) as H.
  destruct (Legacy.fanOut options operation n 0 sites w) as [rs w1].
  destruct H as (Hfs & Hlen & Hful & Hrej & Hlines).
  simpl. rewrite Hful, Hrej, Hlen. simpl.
  split; [exact Hfs |]. split; [reflexivity |]. split; [reflexivity |].
  split; [| split].
  - rewrite <- Hful. apply List.Forall_forall. intros r Hr.
    now apply List.filter_In in Hr.
  - fold n. apply List.last_last.
  - apply Forall_app. split.
    + eapply Forall_impl; [exact Hlines |]. intros line [H | H]; auto.
    + constructor; [| constructor]. right; right. reflexivity.
Qed.

(** ** Exit status 0 without [--continue] *)

(** X18. Without [--continue], exit status 0 means that every URL of the
    sitemap has been saved: the file derived from each URL exists when the
    process has exited with status 0. *)
Theorem exit_zero_means_all_saved
    (md5 : string -> list byte) (yamlDump : Metadata.t -> string)
    (resolve : string -> string -> string) (outputPath : string)
    (options : CrawlOptions) (env : nat -> nat -> Attempt)
    (sites : list string) (w : World) (schedule : list nat) (u : string) :
  let l := crawl md5 yamlDump resolve outputPath options env sites w schedule in
  continue options = false ->
  exitCode l = Some 0 ->
  In u sites ->
  is_Some (fs (world l) !! resolve outputPath (urlToFilename md5 u)).
Proof.
  intros l Hc H0 Hu.
  destruct (crawl_summary_invariant md5 yamlDump resolve outputPath options env
              sites w schedule) as (Hnr & Htg & Hex).
  destruct (crawl_halt_invariant md5 yamlDump resolve outputPath options env
              sites w schedule Hc) as (Hnf & _).
  fold l in Hnr, Htg, Hex, Hnf.
  destruct (Hex H0) as [[rs Hrs] _].
  rewrite <- Htg in Hu. apply in_map_iff in Hu as (t & <- & Hin).
  pose proof (crawl_outcomes_match md5 yamlDump resolve outputPath options env
                sites w schedule t Hin) as Hm.
  fold l in Hm.
  unfold phases in Hnr, Hnf. rewrite List.Forall_forall in Hnr, Hnf.
  specialize (Hnr t Hin). specialize (Hnf t Hin).
  unfold results in Hrs. apply mapM_Some_1 in Hrs.
  apply list_elem_of_In, list_elem_of_lookup in Hin as [i Hi].
  destruct (Forall2_lookup_l _ _ _ _ _ Hrs Hi) as (r & _ & Hr).
  unfold settledOf in Hr. unfold outcome_matches in Hm.
  destruct (phase t) as [| st | [[u' p | u' e] | e]]; try discriminate.
  - destruct Hm as (-> & -> & Hs). exact Hs.
  - exfalso. exact (Hnf u' e eq_refl).
  - exfalso. exact (Hnr e eq_refl).
Qed.

Lemma exit_zero_means_all_saved_witness :
  is_Some
    (fs (world (crawl sample_digest sample_yaml sample_resolve "/out" defaults
                  (fun _ _ => served) ABC empty_world
                  (sequential 3 (patience defaults)))) !! "/out/42.md").
Proof.
  apply (exit_zero_means_all_saved sample_digest sample_yaml sample_resolve
           "/out" defaults (fun _ _ => served) ABC empty_world
           (sequential 3 (patience defaults)) "B").
  - reflexivity.
  - vm_compute; reflexivity.
  - simpl. auto.
Defined.

Lemma crawl_completes_witness :
  exitCode (sample_crawl continuing B_always_fails ABC empty_world
              (sequential 3 (patience continuing))) = Some 0.
Proof.
  apply (crawl_completes sample_digest sample_yaml sample_resolve "/out"
           continuing B_always_fails ABC empty_world).
  reflexivity.
Defined.

Lemma action_startup_failure_witness :
  (let p :=
     action sample_digest sample_yaml sample_resolve "/home" "s.xml" "out"
       defaults mkdir_refused B_always_fails empty_world B_exhausted_last in
   loop p = {| tasks := []; world := empty_world; exitCode := Some 1 |} /\
   List.last (banner p) DebugModeEnabled =
     ErrorFetchingSitemap "EACCES: permission denied" /\
   directory p = None) /\
  (let p :=
     action sample_digest sample_yaml sample_resolve "/home" "s.xml" "out"
       defaults fetch_refused B_always_fails empty_world B_exhausted_last in
   loop p = {| tasks := []; world := empty_world; exitCode := Some 1 |} /\
   List.last (banner p) DebugModeEnabled =
     ErrorFetchingSitemap "getaddrinfo ENOTFOUND" /\
   directory p = Some "/home/out").
Proof.
  destruct (action_startup_failure sample_digest sample_yaml sample_resolve
              "/home" "s.xml" "out" defaults mkdir_refused B_always_fails
              empty_world) as (_ & Hm & _).
  destruct (action_startup_failure sample_digest sample_yaml sample_resolve
              "/home" "s.xml" "out" defaults fetch_refused B_always_fails
              empty_world) as (_ & Hf & _).
  destruct (Hm {| message := "EACCES: permission denied" |} B_exhausted_last
              eq_refl) as (Hm1 & Hm2 & _ & Hm3).
  destruct (Hf {| message := "getaddrinfo ENOTFOUND" |} B_exhausted_last
              eq_refl) as (Hf1 & Hf2 & Hf3 & _).
  split.
  - split; [exact Hm1 |]. split; [exact Hm2 |]. apply Hm3. reflexivity.
  - split; [exact Hf1 |]. split; [exact Hf2 |]. apply Hf3.
    split; reflexivity.
Defined.

Lemma legacy_filename_collisions_witness :
  Legacy.filenameOfPath "/blog/2024-recap" = "blog-2024-recap.md" /\
  Legacy.filenameOfPath "/blog/2024/recap" = "blog-2024-recap.md" /\
  Legacy.filenameOfPath "blog-2024-recap.md" = "blog-2024-recap.md".
Proof.
  destruct (legacy_filename_collisions "blog/2024" "recap"
              "blog-2024-recap.md" "/blog/2024-recap.md")
    as (Hsame & _ & Hcollide).
  split; [reflexivity |]. split.
  - change "/blog/2024/recap" with ("/" ++ "blog/2024" ++ "/" ++ "recap").
    rewrite Hcollide. reflexivity.
  - rewrite Hsame; reflexivity.
Defined.
